(** * DataFortress Auditor: the analysis and fusion core

    A shallow embedding of the classifiers [analyzeSQL], [analyzeAD] and
    [analyzeBackups], of the escalation rule of [runAudit] and of the
    remediation plan, as written in [datafortress/src/App.jsx] and in the
    earlier version of the same component that carries the "Top 3 Immediate
    Actions" panel.

    Conventions of the embedding.
    - A CSV row is a JavaScript object whose values are strings:
      [gmap string string].  A property read gives [VUndefined] when the key
      is absent.
    - Text is a Stdlib [string]; the model covers ASCII text, so
      [toLowerCase] maps [A-Z] to [a-z] and leaves every other character
      alone.
    - A JavaScript number is either [NaN] or an exact value; rounding of
      doubles is not modelled (none of the comparisons made by the code is
      sensitive to it).
    - A method call on a value that has no such method raises [TypeError];
      code that can raise lives in the [Result] monad. *)

From Stdlib Require Import ZArith QArith Qround String Ascii List Bool Lia.
From Stdlib Require Import Permutation Sorted.
From stdpp Require Import base option list gmap strings pretty.

Local Open Scope string_scope.
Local Open Scope list_scope.
Local Open Scope Z_scope.

(** ** JavaScript values and exceptions *)

Inductive JsVal : Type :=
| VUndefined
| VNum (n : Z)
| VStr (s : string).

Inductive JsError : Type :=
| TypeError (msg : string).

Inductive Result (A : Type) : Type :=
| Ok (a : A)
| Throw (e : JsError).

Arguments Ok {A} a.
Arguments Throw {A} e.

#[global] Instance Result_ret : MRet Result := fun A a => Ok a.
#[global] Instance Result_bind : MBind Result := fun A B f m =>
  match m with
  | Ok a => f a
  | Throw e => Throw e
  end.

(** [ToBoolean]: [undefined], [0] and the empty string are falsy. *)
Definition truthy (v : JsVal) : bool :=
  match v with
  | VUndefined => false
  | VNum n => negb (n =? 0)
  | VStr s => negb (String.eqb s "")
  end.

(** [a || b] *)
Definition js_or (a b : JsVal) : JsVal := if truthy a then a else b.

Infix "|||" := js_or (at level 50, left associativity).

(** [ToString], as applied by template literals and by [parseInt]. *)
Definition ToString (v : JsVal) : string :=
  match v with
  | VUndefined => "undefined"
  | VNum n => pretty n
  | VStr s => s
  end.

(** [row.key] on a row object. *)
Definition get (row : gmap string string) (key : string) : JsVal :=
  match row !! key with
  | Some s => VStr s
  | None => VUndefined
  end.

(** ** Strings *)

Definition lower_ascii (c : ascii) : ascii :=
  let n := nat_of_ascii c in
  if ((65 <=? n) && (n <=? 90))%nat then ascii_of_nat (n + 32) else c.

Fixpoint lower (s : string) : string :=
  match s with
  | EmptyString => EmptyString
  | String c s' => String (lower_ascii c) (lower s')
  end.

(** [v.toLowerCase()]: only strings have the method. *)
Definition toLowerCase (v : JsVal) : Result string :=
  match v with
  | VStr s => Ok (lower s)
  | VNum _ => Throw (TypeError "toLowerCase is not a function")
  | VUndefined => Throw (TypeError "Cannot read properties of undefined")
  end.

Fixpoint starts_with (kw s : string) : bool :=
  match kw, s with
  | EmptyString, _ => true
  | String k kw', String c s' => Ascii.eqb k c && starts_with kw' s'
  | String _ _, EmptyString => false
  end.

(** [s.includes(kw)] *)
Fixpoint includes (s kw : string) : bool :=
  starts_with kw s ||
  match s with
  | EmptyString => false
  | String _ s' => includes s' kw
  end.

(** ** parseInt

    [parseInt(v)] with no radix: [ToString], skip leading white space, an
    optional sign, an optional [0x]/[0X] prefix, then the longest run of
    digits of the radix.  [None] is [NaN]. *)

Definition is_ws (c : ascii) : bool :=
  let n := nat_of_ascii c in
  (((9 <=? n) && (n <=? 13)) || (n =? 32))%nat.

Fixpoint trim_start (s : string) : string :=
  match s with
  | EmptyString => EmptyString
  | String c s' => if is_ws c then trim_start s' else s
  end.

Definition digit_val (radix : Z) (c : ascii) : option Z :=
  let n := Z.of_nat (nat_of_ascii c) in
  let d :=
    if (48 <=? n) && (n <=? 57) then Some (n - 48)
    else if (97 <=? n) && (n <=? 122) then Some (n - 87)
    else if (65 <=? n) && (n <=? 90) then Some (n - 55)
    else None in
  match d with
  | Some k => if k <? radix then Some k else None
  | None => None
  end.

Fixpoint digits (radix : Z) (s : string) (acc : option Z) : option Z :=
  match s with
  | EmptyString => acc
  | String c s' =>
      match digit_val radix c with
      | Some d => digits radix s' (Some (radix * default 0 acc + d))
      | None => acc
      end
  end.

Definition parseInt_string (s : string) : option Z :=
  let s1 := trim_start s in
  let '(sign, s2) :=
    match s1 with
    | String "-" r => (-1, r)
    | String "+" r => (1, r)
    | _ => (1, s1)
    end in
  let '(radix, s3) :=
    match s2 with
    | String "0" (String "x" r) => (16, r)
    | String "0" (String "X" r) => (16, r)
    | _ => (10, s2)
    end in
  Z.mul sign <$> digits radix s3 None.

Definition parseInt (v : JsVal) : option Z := parseInt_string (ToString v).

(** [x <= n] for [x] a number or [NaN] and [n] a number. *)
Definition num_le (x : option Z) (n : Z) : bool :=
  match x with
  | Some k => k <=? n
  | None => false
  end.

(** [list.forEach(f)] where the callback updates captured variables: the
    captured variables are the state [S] threaded through the calls. *)
Fixpoint forEach {S A : Type} (f : S -> A -> Result S) (l : list A) (st : S)
  : Result S :=
  match l with
  | [] => Ok st
  | x :: l' => st' ← f st x; forEach f l' st'
  end.

(** ** Severities, findings, verdicts *)

Inductive Severity : Type := UNKNOWN | LOW | MEDIUM | HIGH | CRITICAL.

#[global] Instance Severity_eq_dec : EqDecision Severity.
Proof. solve_decision. Defined.

Record Finding : Type := {
  type : Severity;
  title : string;
  desc : JsVal;
  impact : string
}.

Record SourceVerdict : Type := {
  risk : Severity;
  findings : list Finding
}.

(** A row of a CSV export, and the [data] argument of a classifier: [null]
    or an array of rows. *)
Abbreviation Row := (gmap string string).
Abbreviation Data := (option (list (gmap string string))).

(** ** analyzeSQL *)

(** The callback of [data.forEach]; [findings] and [riskLevel] are the
    variables it captures. *)
Definition sql_row (st : list Finding * Severity) (row : Row)
  : Result (list Finding * Severity) :=
  let '(findings, riskLevel) := st in
  let priority := parseInt (get row "Priority" ||| VNum 999) in
  findingText ← toLowerCase (get row "Finding" ||| VStr "");
  let details := get row "Details" ||| VStr "" in
  let dbName := get row "DatabaseName" ||| VStr "Unknown" in
  if num_le priority 50 then
    if includes findingText "backups not performed" then
      Ok (findings ++ [
            {| type := CRITICAL;
               title := "No Backups: " +:+ ToString dbName;
               desc := VStr ("Database '" +:+ ToString dbName +:+
                             "' has not been backed up recently. " +:+
                             ToString details);
               impact := "Total data loss of recent transactions in event of crash." |}],
          CRITICAL)
    else if includes findingText "corruption check" then
      Ok (findings ++ [
            {| type := HIGH;
               title := "Corruption Risk: " +:+ ToString dbName;
               desc := VStr ("DBCC CHECKDB never run on '" +:+ ToString dbName +:+ "'.");
               impact := "Database may contain silent corruption making backups useless." |}],
          if bool_decide (riskLevel <> CRITICAL) then HIGH else riskLevel)
    else
      Ok (findings ++ [
            {| type := MEDIUM;
               title := "Config Issue: " +:+ findingText;
               desc := details;
               impact := "Performance or stability risk." |}],
          if bool_decide (riskLevel = LOW) then MEDIUM else riskLevel)
  else Ok (findings, riskLevel).

Definition analyzeSQL (data : Data) : Result SourceVerdict :=
  match data with
  | None | Some [] => Ok {| risk := UNKNOWN; findings := [] |}
  | Some rows =>
      '(findings, riskLevel) ← forEach sql_row rows ([], LOW);
      Ok {| risk := riskLevel; findings := findings |}
  end.

(** ** analyzeAD *)

Definition redFlagKeywords : list string :=
  ["temp"; "scanner"; "backup"; "service"; "test"; "msp"; "vendor";
   "printer"; "copy"].

Definition ad_row (st : list Finding * Severity) (row : Row)
  : Result (list Finding * Severity) :=
  let '(findings, riskLevel) := st in
  group ← toLowerCase (get row "GroupName" ||| VStr "");
  name ← toLowerCase (get row "Name" ||| VStr "");
  sam ← toLowerCase (get row "SamAccountName" ||| VStr "");
  let combinedSearch := name +:+ " " +:+ sam in
  if includes group "admin" then
    isRedFlag ← forEach
      (fun isRedFlag keyword =>
         Ok (if includes combinedSearch keyword then true else isRedFlag))
      redFlagKeywords false;
    if isRedFlag : bool then
      Ok (findings ++ [
            {| type := CRITICAL;
               title := "Unsecured Admin: " +:+ ToString (get row "SamAccountName");
               desc := VStr ("Account '" +:+ ToString (get row "Name") +:+
                             "' is in '" +:+ ToString (get row "GroupName") +:+
                             "'. This appears to be a service or generic account.");
               impact := "High risk of credential theft. Service accounts should not be Domain Admins." |}],
          CRITICAL)
    else Ok (findings, riskLevel)
  else Ok (findings, riskLevel).

Definition analyzeAD (data : Data) : Result SourceVerdict :=
  match data with
  | None | Some [] => Ok {| risk := UNKNOWN; findings := [] |}
  | Some rows =>
      '(findings, riskLevel) ← forEach ad_row rows ([], LOW);
      Ok {| risk := riskLevel; findings := findings |}
  end.

(** ** Dates and numbers *)

(** A [Date] object: its time value in milliseconds since the epoch, [None]
    for an Invalid Date. *)
Record JsDate : Type := { getTime : option Z }.

(** A number that need not be an integer. *)
Inductive Num : Type :=
| NaN
| Fin (q : Q).

(** [a - b] on dates: both are converted to their time values. *)
Definition date_sub (a b : JsDate) : option Z :=
  match getTime a, getTime b with
  | Some x, Some y => Some (x - y)
  | _, _ => None
  end.

(** [a > b] on dates; a comparison with [NaN] is false. *)
Definition date_gt (a b : JsDate) : bool :=
  match getTime a, getTime b with
  | Some x, Some y => y <? x
  | _, _ => false
  end.

(** [ms / (1000 * 60 * 60)] *)
Definition hours_of_ms (ms : option Z) : Num :=
  match ms with
  | Some z => Fin (inject_Z z / inject_Z (1000 * 60 * 60))
  | None => NaN
  end.

(** [x > n]; false when [x] is [NaN]. *)
Definition num_gt (x : Num) (n : Z) : bool :=
  match x with
  | Fin q => negb (Qle_bool q (inject_Z n))
  | NaN => false
  end.

(** [s] padded with zeros on the left to [width] characters. *)
Definition pad_left (width : nat) (s : string) : string :=
  string_of_list_ascii (repeat "0"%char (width - String.length s)) +:+ s.

(** [x.toFixed(digits)]: [x] rounded to [digits] decimals, ties upwards in
    magnitude, printed in fixed-point notation. *)
Definition toFixed (x : Num) (digits : nat) : string :=
  match x with
  | NaN => "NaN"
  | Fin q =>
      let scale := 10 ^ Z.of_nat digits in
      let mag := if Qle_bool 0 q then q else Qopp q in
      let n := Qfloor (mag * inject_Z scale + (1 # 2)) in
      let sign := if Qle_bool 0 q then "" else "-" in
      match digits with
      | O => sign +:+ pretty n
      | _ => sign +:+ pretty (n / scale) +:+ "." +:+ pad_left digits (pretty (n mod scale))
      end
  end.

(** [array.map(f)] for a callback that may raise. *)
Fixpoint Array_map {A B : Type} (f : A -> Result B) (l : list A)
  : Result (list B) :=
  match l with
  | [] => Ok []
  | x :: l' => y ← f x; ys ← Array_map f l'; Ok (y :: ys)
  end.

(** [array.sort(comparefn)].  A comparator result of [NaN] is read as [+0].
    For a consistent comparator ECMAScript fixes the result: the stable
    ascending order, which is what this insertion sort computes.  With an
    inconsistent comparator (here: when some date is invalid) the standard
    leaves the order to the implementation; the result is still a
    rearrangement of the array, and this definition is one such order. *)
Section Sort.
Context {A : Type} (comparefn : A -> A -> option Z).

Definition sorts_before (a b : A) : bool :=
  match comparefn a b with
  | Some v => v <? 0
  | None => false
  end.

Fixpoint sort_insert (x : A) (l : list A) : list A :=
  match l with
  | [] => [x]
  | y :: l' => if sorts_before y x then y :: sort_insert x l' else x :: y :: l'
  end.

Fixpoint Array_sort (l : list A) : list A :=
  match l with
  | [] => []
  | x :: l' => sort_insert x (Array_sort l')
  end.
End Sort.

(** ** analyzeBackups *)

Module Status.
Inductive t : Type := PASS | FAIL | UNKNOWN.

#[global] Instance eq_dec : EqDecision t.
Proof. solve_decision. Defined.
End Status.

Record BackupVerdict : Type := {
  status : Status.t;
  gap : Num;
  lastSuccess : option JsDate;
  latestLog : option JsDate;
  failCount : nat
}.

(** An element of [cleanData]. *)
Record CleanRow : Type := {
  date : JsDate;
  message : string;
  original : Row
}.

Record Report : Type := {
  sql : SourceVerdict;
  ad : SourceVerdict;
  backup : BackupVerdict;
  overall : Severity
}.

Section Auditor.
(** [Date.parse] on a string ([None]: the string is not a date) and the
    clock read by [new Date()] are provided by the JavaScript engine. *)
Variable Date_parse : string -> option Z.
Variable now : JsDate.

(** [new Date(v)] *)
Definition new_Date (v : JsVal) : JsDate :=
  match v with
  | VStr s => {| getTime := Date_parse s |}
  | VNum n => {| getTime := Some n |}
  | VUndefined => {| getTime := None |}
  end.

Definition clean_row (row : Row) : Result CleanRow :=
  let timeStr :=
    get row "TimeCreated" ||| get row "TimeGenerated"
      ||| get row "TimeCreated" ||| VStr "" in
  message ← toLowerCase (get row "Message" ||| VStr "");
  Ok {| date := new_Date timeStr; message := message; original := row |}.

Definition by_date_desc (a b : CleanRow) : option Z :=
  date_sub (date b) (date a).

Definition is_success (row : CleanRow) : bool :=
  includes (message row) "successfully" || includes (message row) "succeeded".

(** The callback of the failure count; [failCount] is the variable it
    updates, [lastSuccessDate] is [null] or a date. *)
Definition count_row (lastSuccessDate : option JsDate) (failCount : nat)
    (row : CleanRow) : Result nat :=
  Ok (if includes (message row) "fail" || includes (message row) "error" then
        if match lastSuccessDate with
           | None => true
           | Some d => date_gt (date row) d
           end
        then S failCount
        else failCount
      else failCount).

Definition analyzeBackups (data : Data) : Result BackupVerdict :=
  match data with
  | None | Some [] =>
      Ok {| status := Status.UNKNOWN; gap := Fin 0; lastSuccess := None;
            latestLog := None; failCount := 0 |}
  | Some rows =>
      mapped ← Array_map clean_row rows;
      let cleanData := Array_sort by_date_desc mapped in
      let latestLogDate :=
        match cleanData with
        | first :: _ => Some (date first)
        | [] => None
        end in
      let successRow := List.find is_success cleanData in
      let lastSuccessDate :=
        match successRow with
        | Some r => Some (date r)
        | None => None
        end in
      failCount ← forEach (count_row lastSuccessDate) cleanData 0%nat;
      let refTime := default now latestLogDate in
      let compareTime := default (new_Date (VNum 0)) lastSuccessDate in
      let diffMs := date_sub refTime compareTime in
      let hoursGap := hours_of_ms diffMs in
      let status := if num_gt hoursGap 24 then Status.FAIL else Status.PASS in
      Ok {| status := status; gap := hoursGap; lastSuccess := lastSuccessDate;
            latestLog := latestLogDate; failCount := failCount |}
  end.

(** ** runAudit: the escalation rule *)

Definition overallRisk (sqlRisk adRisk : Severity) (backupStatus : Status.t)
  : Severity :=
  let overall := LOW in
  let overall :=
    if bool_decide (sqlRisk = MEDIUM) || bool_decide (adRisk = MEDIUM)
    then MEDIUM else overall in
  let overall :=
    if bool_decide (sqlRisk = HIGH) || bool_decide (adRisk = HIGH)
    then HIGH else overall in
  let overall :=
    if bool_decide (sqlRisk = CRITICAL) || bool_decide (adRisk = CRITICAL)
       || bool_decide (backupStatus = Status.FAIL)
    then CRITICAL else overall in
  overall.

Definition runAudit (sqlData adData backupData : Data) : Result Report :=
  sqlAnalysis ← analyzeSQL sqlData;
  adAnalysis ← analyzeAD adData;
  backupAnalysis ← analyzeBackups backupData;
  let overall :=
    overallRisk (risk sqlAnalysis) (risk adAnalysis) (status backupAnalysis) in
  Ok {| sql := sqlAnalysis; ad := adAnalysis; backup := backupAnalysis;
        overall := overall |}.

(** ** The remediation plan *)

(** [title.split(':')[1]]: the text between the first and the second
    colon, [undefined] when the title has no colon. *)
Fixpoint until_colon (s : string) : string :=
  match s with
  | EmptyString => EmptyString
  | String c s' => if Ascii.eqb c ":" then EmptyString else String c (until_colon s')
  end.

Fixpoint split_colon_1 (s : string) : JsVal :=
  match s with
  | EmptyString => VUndefined
  | String c s' => if Ascii.eqb c ":" then VStr (until_colon s') else split_colon_1 s'
  end.

(** [array.join(sep)]; an [undefined] element is printed as nothing. *)
Definition join_elem (v : JsVal) : string :=
  match v with
  | VUndefined => ""
  | _ => ToString v
  end.

Fixpoint Array_join (sep : string) (l : list JsVal) : string :=
  match l with
  | [] => ""
  | [v] => join_elem v
  | v :: l' => join_elem v +:+ sep +:+ Array_join sep l'
  end.

Definition flaggedAccounts (report : Report) : string :=
  Array_join ", " (map (fun f => split_colon_1 (title f)) (findings (ad report))).

(** One card of the "Top 3 Immediate Actions" panel. *)
Record ActionCard : Type := {
  badge : string;
  heading : string;
  text : string
}.

(** [cond && <card/>] inside a list of children. *)
Definition when (cond : bool) (card : ActionCard) : list ActionCard :=
  if cond then [card] else [].

(** The children of the panel, in the order they are rendered. *)
Definition immediateActions (report : Report) : list ActionCard :=
  when (bool_decide (status (backup report) = Status.FAIL))
    {| badge := "1"; heading := "Emergency Backup Run";
       text := "Backups are stale (> " +:+ toFixed (gap (backup report)) 0 +:+
               " hours). Manually trigger a full backup of critical databases and file shares immediately." |}
  ++ when (0 <? length (findings (ad report)))%nat
    {| badge := "2"; heading := "Lock Down Admin Accounts";
       text := "Disable or demote the flagged accounts (" +:+ flaggedAccounts report +:+
               "). Service accounts should not have Domain Admin rights." |}
  ++ when (0 <? length (findings (sql report)))%nat
    {| badge := "3"; heading := "Run DBCC CHECKDB & Log Audits";
       text := "Verify database integrity on Inventory/HR databases to ensure corruption has not occurred silently." |}
  ++ when (bool_decide (overall report <> CRITICAL))
    {| badge := "!"; heading := "Schedule Quarterly Review";
       text := "While risks are low, schedule a follow-up in 90 days to ensure configurations remain secure." |}.

(** The "IMMEDIATE REMEDIATION PLAN" part of [handleDownloadTxt]: the lines
    pushed after the section title, with [actionCount] threaded along. *)
Definition remediationLines (report : Report) : list string :=
  let lines : list string := [] in
  let actionCount := 1 in
  let '(lines, actionCount) :=
    if bool_decide (status (backup report) = Status.FAIL) then
      (lines ++ [
         pretty actionCount +:+ ". EMERGENCY BACKUP RUN";
         "   Why: Backups are stale (> " +:+ toFixed (gap (backup report)) 0 +:+
           " hours). You are exposed to total data loss.";
         "   Action: Manually trigger a full backup of critical databases immediately."],
       actionCount + 1)
    else (lines, actionCount) in
  let '(lines, actionCount) :=
    if (0 <? length (findings (ad report)))%nat then
      (lines ++ [
         pretty actionCount +:+ ". LOCK DOWN ADMIN ACCOUNTS";
         "   Why: Service accounts in 'Domain Admins' provide hackers an easy backdoor.";
         "   Action: Disable or demote flagged accounts (" +:+ flaggedAccounts report +:+ ")."],
       actionCount + 1)
    else (lines, actionCount) in
  let '(lines, actionCount) :=
    if (0 <? length (findings (sql report)))%nat then
      (lines ++ [
         pretty actionCount +:+ ". DATABASE INTEGRITY CHECKS";
         "   Why: Corrupt databases cannot be restored, even if backed up.";
         "   Action: Run DBCC CHECKDB on flagged databases."],
       actionCount + 1)
    else (lines, actionCount) in
  lines.

(** The "Immediate Actions" panel of version 1.4.0 ([App.jsx]): one card,
    chosen by the overall risk. *)
Definition immediateActions_v14 (report : Report) : list ActionCard :=
  [ if bool_decide (overall report = CRITICAL) then
      {| badge := ""; heading := "Critical Remediation Required";
         text := "Your systems are at risk. Please schedule immediate remediation for the findings above." |}
    else
      {| badge := ""; heading := "Routine Maintenance";
         text := "Schedule next review in 90 days." |} ].
End Auditor.

(** * The vocabulary of the specification *)

(** ** The order on severities *)

(** [LOW < MEDIUM < HIGH < CRITICAL]; [UNKNOWN] counts as [LOW]. *)
Definition rank (s : Severity) : nat :=
  match s with
  | UNKNOWN | LOW => 0
  | MEDIUM => 1
  | HIGH => 2
  | CRITICAL => 3
  end.

Definition as_low (s : Severity) : Severity :=
  match s with
  | UNKNOWN => LOW
  | _ => s
  end.

(** The maximum of two severities under that order. *)
Definition sev_max (a b : Severity) : Severity :=
  if (rank a <? rank b)%nat then as_low b else as_low a.

(** The highest severity of a list, [LOW] for the empty list. *)
Definition sev_list_max (l : list Severity) : Severity :=
  fold_right sev_max LOW l.

(** The backup status read as a severity: [CRITICAL] if [FAIL], else [LOW]. *)
Definition backup_severity (st : Status.t) : Severity :=
  match st with
  | Status.FAIL => CRITICAL
  | _ => LOW
  end.

(** ** Case-insensitive containment *)

(** [c] is the capital letter whose small letter is [k]. *)
Definition capital_of (c k : ascii) : Prop :=
  (65 <= nat_of_ascii c <= 90)%nat /\ nat_of_ascii k = (nat_of_ascii c + 32)%nat.

Definition same_letter (k c : ascii) : Prop := c = k \/ capital_of c k.

(** [s] begins with [kw], up to the case of the letters of [s]. *)
Inductive ci_prefix : string -> string -> Prop :=
| ci_prefix_nil s : ci_prefix EmptyString s
| ci_prefix_cons k c kw s :
    same_letter k c -> ci_prefix kw s -> ci_prefix (String k kw) (String c s).

(** [kw] occurs somewhere in [s], up to the case of the letters of [s]. *)
Inductive contains_ci (kw : string) : string -> Prop :=
| contains_here s : ci_prefix kw s -> contains_ci kw s
| contains_later c s : contains_ci kw s -> contains_ci kw (String c s).

(** A keyword written in small letters. *)
Definition small_letters (kw : string) : Prop := lower kw = kw.

(** A keyword without a space. *)
Fixpoint spaceless (kw : string) : Prop :=
  match kw with
  | EmptyString => True
  | String k kw' => k <> " "%char /\ spaceless kw'
  end.

(** ** Records *)

Definition records (data : Data) : list Row := default [] data.

(** The text of a field; a missing column reads as the empty string. *)
Definition field (row : Row) (key : string) : string := default "" (row !! key).

(** One output per input that satisfies [P], in input order, related to its
    input by [R]; nothing for the other inputs. *)
Inductive emitted {A B : Type} (P : A -> Prop) (R : A -> B -> Prop)
  : list A -> list B -> Prop :=
| emitted_nil : emitted P R [] []
| emitted_hit a b l out :
    P a -> R a b -> emitted P R l out -> emitted P R (a :: l) (b :: out)
| emitted_skip a l out :
    ~ P a -> emitted P R l out -> emitted P R (a :: l) out.

(** [n] is the number of elements of the list that satisfy [P]. *)
Inductive counted {A : Type} (P : A -> Prop) : list A -> nat -> Prop :=
| counted_nil : counted P [] 0
| counted_hit a l n : P a -> counted P l n -> counted P (a :: l) (S n)
| counted_skip a l n : ~ P a -> counted P l n -> counted P (a :: l) n.

(** ** SQL records *)

(** The record's [Priority] parses to an integer that is at most 50. *)
Definition actionable (row : Row) : Prop :=
  exists p n, row !! "Priority" = Some p /\ parseInt_string p = Some n /\ n <= 50.

(** The record's [Finding] text contains [kw], case-insensitively. *)
Definition finding_mentions (kw : string) (row : Row) : Prop :=
  contains_ci kw (field row "Finding").

(** The severity the SQL rules give to a record. *)
Inductive sql_class (row : Row) : Severity -> Prop :=
| sql_class_critical :
    actionable row -> finding_mentions "backups not performed" row ->
    sql_class row CRITICAL
| sql_class_high :
    actionable row -> ~ finding_mentions "backups not performed" row ->
    finding_mentions "corruption check" row ->
    sql_class row HIGH
| sql_class_medium :
    actionable row -> ~ finding_mentions "backups not performed" row ->
    ~ finding_mentions "corruption check" row ->
    sql_class row MEDIUM.

(** ** AD records *)

(** The row is in an admin group and a red-flag keyword occurs in its
    [Name] or in its [SamAccountName]: the two are searched joined by one
    space, and no keyword has a space. *)
Definition red_flag (row : Row) : Prop :=
  contains_ci "admin" (field row "GroupName") /\
  exists kw, In kw redFlagKeywords /\
    contains_ci kw (field row "Name" +:+ " " +:+ field row "SamAccountName").

(** The same with [Name] and [SamAccountName] concatenated directly. *)
Definition red_flag_concat (row : Row) : Prop :=
  contains_ci "admin" (field row "GroupName") /\
  exists kw, In kw redFlagKeywords /\
    contains_ci kw (field row "Name" +:+ field row "SamAccountName").

(** The finding for a flagged row, named after its [SamAccountName]. *)
Definition unsecured_admin (row : Row) (f : Finding) : Prop :=
  type f = CRITICAL /\
  forall sam, row !! "SamAccountName" = Some sam ->
              title f = "Unsecured Admin: " +:+ sam.

(** The findings one row adds to the list, read off the callbacks. *)
Definition sql_out (row : Row) : list Finding :=
  match sql_row ([], LOW) row with
  | Ok (fs, _) => fs
  | Throw _ => []
  end.

Definition ad_out (row : Row) : list Finding :=
  match ad_row ([], LOW) row with
  | Ok (fs, _) => fs
  | Throw _ => []
  end.

(** ** Well-formed verdicts *)

Definition is_string (v : JsVal) : Prop := exists s, v = VStr s.

Definition wf_finding (f : Finding) : Prop :=
  In (type f) [MEDIUM; HIGH; CRITICAL] /\ is_string (desc f).

(** Findings are well formed, an [UNKNOWN] verdict has none, and the risk
    of any other verdict is the highest severity among its findings, [LOW]
    if there is none. *)
Definition wf_source (v : SourceVerdict) : Prop :=
  Forall wf_finding (findings v) /\
  match risk v with
  | UNKNOWN => findings v = []
  | r => r = sev_list_max (map type (findings v))
  end.

(** An [UNKNOWN] verdict carries the neutral values; any other verdict has
    a latest log date, and counts at most [n] failures. *)
Definition wf_backup (n : nat) (v : BackupVerdict) : Prop :=
  match status v with
  | Status.UNKNOWN =>
      gap v = Fin 0 /\ lastSuccess v = None /\ latestLog v = None /\
      failCount v = 0%nat
  | _ => latestLog v <> None /\ (failCount v <= n)%nat
  end.

(** ** Remediation plans *)

(** The item [x] when [cond] holds, nothing otherwise. *)
Definition pick {A : Type} (cond : bool) (x : A) : list A :=
  if cond then [x] else [].

Definition nonempty {A : Type} (l : list A) : bool :=
  match l with
  | [] => false
  | _ :: _ => true
  end.

(** The text plan gives three lines to each item; the first is its
    numbered headline. *)
Fixpoint headlines (lines : list string) : list string :=
  match lines with
  | h :: _ :: _ :: rest => h :: headlines rest
  | _ => []
  end.

(** Headlines numbered from 1. *)
Definition numbered (names : list string) : list string :=
  imap (fun i name => pretty (Z.of_nat (S i)) +:+ ". " +:+ name) names.

(** ** Backup records *)

Section BackupSpec.
Variable Date_parse : string -> option Z.

(** The record's timestamp: [TimeCreated], or else [TimeGenerated]; [None]
    when it cannot be parsed. *)
Definition timestamp (row : Row) : option Z :=
  Date_parse (if String.eqb (field row "TimeCreated") ""
              then field row "TimeGenerated"
              else field row "TimeCreated").

(** The entry of [cleanData] made from a record: its parsed timestamp and
    its message in small letters. *)
Definition cleaned (row : Row) : CleanRow :=
  {| date := {| getTime := timestamp row |};
     message := lower (field row "Message");
     original := row |}.

(** Both entries are dated, and [a] is not older than [b]. *)
Definition not_older (a b : CleanRow) : Prop :=
  exists x y, getTime (date a) = Some x /\ getTime (date b) = Some y /\ y <= x.

Definition dated (c : CleanRow) : Prop := getTime (date c) <> None.

Definition success_record (row : Row) : Prop :=
  contains_ci "successfully" (field row "Message") \/
  contains_ci "succeeded" (field row "Message").

Definition failure_record (row : Row) : Prop :=
  contains_ci "fail" (field row "Message") \/
  contains_ci "error" (field row "Message").

(** Strictly after the last success, by comparison of time values: an
    unparseable timestamp on either side is after nothing and has nothing
    after it.  Every record counts when there was no success. *)
Definition after_success (lastSuccess : option JsDate) (row : Row) : Prop :=
  match lastSuccess with
  | None => True
  | Some d => exists t s, timestamp row = Some t /\ getTime d = Some s /\ s < t
  end.

(** Strictly after the last success, with an unparseable timestamp read as
    the oldest instant: it is after nothing, and every parseable timestamp
    is after it. *)
Definition after_success_oldest (lastSuccess : option JsDate) (row : Row)
  : Prop :=
  match lastSuccess with
  | None => True
  | Some d =>
      match timestamp row, getTime d with
      | Some t, Some s => s < t
      | Some _, None => True
      | None, _ => False
      end
  end.
End BackupSpec.

(** * Sample inputs *)

(** An instance of [Date.parse] for closed examples: the date-time format
    ECMAScript prescribes, in the form [YYYY-MM-DDTHH:mm:ssZ].  Every other
    string is rejected by this instance (an engine may accept more forms;
    the empty string is an Invalid Date in every engine). *)
Definition days_from_civil (y m d : Z) : Z :=
  let y' := if m <=? 2 then y - 1 else y in
  let era := y' / 400 in
  let yoe := y' - era * 400 in
  let mp := (m + 9) mod 12 in
  let doy := (153 * mp + 2) / 5 + d - 1 in
  let doe := yoe * 365 + yoe / 4 - yoe / 100 + doy in
  era * 146097 + doe - 719468.

Definition days_in_month (y m : Z) : Z :=
  if m =? 2 then
    if ((y mod 4 =? 0) && negb (y mod 100 =? 0)) || (y mod 400 =? 0) then 29 else 28
  else if (m =? 4) || (m =? 6) || (m =? 9) || (m =? 11) then 30
  else 31.

Fixpoint decimal (l : list ascii) (acc : Z) : option Z :=
  match l with
  | [] => Some acc
  | c :: l' =>
      match digit_val 10 c with
      | Some d => decimal l' (10 * acc + d)
      | None => None
      end
  end.

Definition Date_parse_iso (s : string) : option Z :=
  match list_ascii_of_string s with
  | [y1; y2; y3; y4; p1; m1; m2; p2; d1; d2; p3; h1; h2; p4; i1; i2; p5; s1; s2; p6] =>
      if String.eqb (string_of_list_ascii [p1; p2; p3; p4; p5; p6]) "--T::Z" then
        y ← decimal [y1; y2; y3; y4] 0;
        m ← decimal [m1; m2] 0;
        d ← decimal [d1; d2] 0;
        h ← decimal [h1; h2] 0;
        i ← decimal [i1; i2] 0;
        sec ← decimal [s1; s2] 0;
        if (1 <=? m) && (m <=? 12) && (1 <=? d) && (d <=? days_in_month y m)
           && (h <=? 23) && (i <=? 59) && (sec <=? 59)
        then Some ((((days_from_civil y m d * 24 + h) * 60 + i) * 60 + sec) * 1000)
        else None
      else None
  | _ => None
  end.

Definition sample_now : JsDate := {| getTime := Date_parse_iso "2025-12-19T12:00:00Z" |}.

Definition mkRow (fields : list (string * string)) : Row := list_to_map fields.

Definition sql_row_backups : Row :=
  mkRow [("Priority", "10"); ("Finding", "Backups not performed");
         ("DatabaseName", "HR"); ("Details", "")].

Definition sql_row_shrink : Row :=
  mkRow [("Priority", "20"); ("Finding", "Auto-shrink enabled");
         ("DatabaseName", "Inventory"); ("Details", "File growth is erratic.")].

Definition ad_row_split : Row :=
  mkRow [("GroupName", "Domain Admins"); ("Name", "te"); ("SamAccountName", "st")].

Definition ad_row_svc : Row :=
  mkRow [("GroupName", "Domain Admins"); ("Name", "Backup Service");
         ("SamAccountName", "svc_backup")].

Definition backup_row_undated_success : Row :=
  mkRow [("TimeCreated", ""); ("Message", "Backup succeeded")].

Definition backup_row_failed : Row :=
  mkRow [("TimeCreated", "2025-01-01T00:00:00Z"); ("Message", "Backup failed")].

Definition backup_row_undated : Row :=
  mkRow [("TimeCreated", ""); ("Message", "Job started")].

(** * The CSV reader, the file validation and the summary export *)

(** ** More of [String.prototype] *)

(** [s.split(sep)] for a one-character separator: the pieces between the
    separators, so one piece more than there are separators. *)
Fixpoint split_on (sep : ascii) (s : string) : list string :=
  match s with
  | EmptyString => [EmptyString]
  | String c s' =>
      if Ascii.eqb c sep then EmptyString :: split_on sep s'
      else match split_on sep s' with
           | piece :: rest => String c piece :: rest
           | [] => [String c EmptyString]
           end
  end.

Fixpoint trim_end (s : string) : string :=
  match s with
  | EmptyString => EmptyString
  | String c s' =>
      match trim_end s' with
      | EmptyString => if is_ws c then EmptyString else String c EmptyString
      | t => String c t
      end
  end.

(** [s.trim()] *)
Definition trim (s : string) : string := trim_end (trim_start s).

Definition dquote : ascii := "034"%char.

Fixpoint drop_last_quote (s : string) : string :=
  match s with
  | EmptyString => EmptyString
  | String c EmptyString => if Ascii.eqb c dquote then EmptyString else s
  | String c s' => String c (drop_last_quote s')
  end.

(** [s.replace(/^"|"$/g, '')]: a quote at the very start is removed, and a
    quote at the very end of what is left. *)
Definition unquote (s : string) : string :=
  match s with
  | String c s' => if Ascii.eqb c dquote then drop_last_quote s' else drop_last_quote s
  | EmptyString => EmptyString
  end.

(** ** parseCSV *)

Record Parsed : Type := {
  headers : list string;
  data : list Row
}.

(** [obj[key] = value] for a string [value] on a plain object: an own
    property is written, except under the key [__proto__], whose setter
    ignores a value that is not an object. *)
Definition set_property (obj : Row) (key value : string) : Row :=
  if String.eqb key "__proto__" then obj else <[key := value]> obj.

(** The callback of [headers.forEach], run from [index] on: each header is
    given the cell at its index, the empty string when that cell is missing
    or empty. *)
Fixpoint assign_cells (obj : Row) (index : nat) (headers finalValues : list string)
  : Row :=
  match headers with
  | [] => obj
  | header :: rest =>
      assign_cells
        (set_property obj header (default EmptyString (finalValues !! index)))
        (S index) rest finalValues
  end.

Section CSV.
(** The matches of the cell pattern of [parseCSV] in a line (or the empty
    array when there is none), as the regular-expression engine returns
    them. *)
Variable match_values : string -> list string.

(** The body of the loop over the data lines. *)
Definition csv_row (headers : list string) (currentLine : string) : Row :=
  let values := match_values currentLine in
  let simpleValues := map (fun v => unquote (trim v)) (split_on "," currentLine) in
  let finalValues :=
    if (length simpleValues =? length headers)%nat then simpleValues
    else map unquote values in
  assign_cells ∅ 0 headers finalValues.

Definition csv_lines (text : string) : list string :=
  List.filter (fun line => negb (String.eqb (trim line) EmptyString))
              (split_on "010"%char text).

(** [parseCSV] of version 1.4.0. *)
Definition parseCSV (text : string) : Parsed :=
  match csv_lines text with
  | [] => {| headers := []; data := [] |}
  | first :: rest =>
      let headers := map (fun h => unquote (trim h)) (split_on "," first) in
      {| headers := headers; data := map (csv_row headers) rest |}
  end.

(** [parseCSV] of the earlier version, which returns the rows only. *)
Definition parseCSV_rows (text : string) : list Row :=
  match csv_lines text with
  | [] => []
  | first :: rest =>
      let headers := map (fun h => unquote (trim h)) (split_on "," first) in
      map (csv_row headers) rest
  end.
End CSV.

(** ** The cell pattern

    The matches of the cell pattern of [parseCSV] in a line of ASCII text,
    found from left to right.  A match is a quoted run that
    ends at the first closing quote after which only white space separates
    it from a comma or from the end of the line, or else a longest run of
    characters other than quotes, commas and white space that is followed
    in the same way. *)

(** The lookahead: white space, then a comma or the end. *)
Fixpoint cell_ends (s : string) : bool :=
  match s with
  | EmptyString => true
  | String c s' => Ascii.eqb c "," || (is_ws c && cell_ends s')
  end.

Definition line_terminator (c : ascii) : bool :=
  Ascii.eqb c "010"%char || Ascii.eqb c "013"%char.

(** After an opening quote: the rest of the quoted match and what follows
    it. *)
Fixpoint quoted_rest (s : string) : option (string * string) :=
  match s with
  | EmptyString => None
  | String c s' =>
      if Ascii.eqb c dquote && cell_ends s' then Some (String c EmptyString, s')
      else if line_terminator c then None
      else match quoted_rest s' with
           | Some (m, r) => Some (String c m, r)
           | None => None
           end
  end.

Definition plain_char (c : ascii) : bool :=
  negb (Ascii.eqb c dquote || Ascii.eqb c "," || is_ws c).

(** The longest run of plain characters at the start, and what follows. *)
Fixpoint plain_run (s : string) : string * string :=
  match s with
  | EmptyString => (EmptyString, EmptyString)
  | String c s' =>
      if plain_char c then let '(m, r) := plain_run s' in (String c m, r)
      else (EmptyString, s)
  end.

Fixpoint match_cells_from (fuel : nat) (s : string) : list string :=
  match fuel, s with
  | O, _ | _, EmptyString => []
  | S fuel', String c s' =>
      if Ascii.eqb c dquote then
        match quoted_rest s' with
        | Some (m, r) => String c m :: match_cells_from fuel' r
        | None => match_cells_from fuel' s'
        end
      else
        let '(m, r) := plain_run s in
        match m with
        | EmptyString => match_cells_from fuel' s'
        | _ => if cell_ends r then m :: match_cells_from fuel' r
               else match_cells_from fuel' s'
        end
  end.

(** Every step consumes a character, so the length of the line is fuel
    enough. *)
Definition match_cells (line : string) : list string :=
  match_cells_from (String.length line) line.

(** ** validateFile *)

(** The upload slots ['sql'], ['ad'] and ['backup']. *)
Inductive Slot : Type := slot_sql | slot_ad | slot_backup.

#[global] Instance Slot_eq_dec : EqDecision Slot.
Proof. solve_decision. Defined.

Record Validation : Type := {
  valid : bool;
  error : option string
}.

Definition typeNames (type : Slot) : string :=
  match type with
  | slot_sql => "SQL Health"
  | slot_ad => "AD Security"
  | slot_backup => "Backup Integrity"
  end.

(** [array.includes(x)] on an array of strings. *)
Definition Array_includes (l : list string) (x : string) : bool :=
  existsb (String.eqb x) l.

Definition detectType (lowered : list string) : option Slot :=
  if Array_includes lowered "priority" && Array_includes lowered "finding"
  then Some slot_sql
  else if Array_includes lowered "groupname" && Array_includes lowered "samaccountname"
  then Some slot_ad
  else if Array_includes lowered "message" then Some slot_backup
  else None.

Definition validateFile (type : Slot) (parsed : option Parsed) : Validation :=
  match parsed with
  | None => {| valid := false; error := Some "File is empty or unreadable." |}
  | Some p =>
      if (length (data p) =? 0)%nat then
        {| valid := false; error := Some "File is empty or unreadable." |}
      else
        let headers := map lower (headers p) in
        match detectType headers with
        | None =>
            {| valid := false;
               error := Some "Unknown file format. Ensure it's a valid CSV export." |}
        | Some detectedType =>
            if bool_decide (detectedType <> type) then
              {| valid := false;
                 error := Some ("This appears to be a " +:+ typeNames detectedType +:+
                                " file. Please upload to the correct slot.") |}
            else {| valid := true; error := None |}
        end
  end.

(** ** handleFileUpload and the upload state *)

Record FileState : Type := {
  file_data : Data;
  file_valid : bool;
  file_error : option string
}.

Record Files : Type := {
  files_sql : FileState;
  files_ad : FileState;
  files_backup : FileState
}.

Definition no_file : FileState :=
  {| file_data := None; file_valid := false; file_error := None |}.

(** The initial value of the [files] state. *)
Definition initial_files : Files :=
  {| files_sql := no_file; files_ad := no_file; files_backup := no_file |}.

Definition slot_of (files : Files) (type : Slot) : FileState :=
  match type with
  | slot_sql => files_sql files
  | slot_ad => files_ad files
  | slot_backup => files_backup files
  end.

(** The state with the entry of [type] replaced. *)
Definition set_slot (prev : Files) (type : Slot) (st : FileState) : Files :=
  match type with
  | slot_sql =>
      {| files_sql := st; files_ad := files_ad prev; files_backup := files_backup prev |}
  | slot_ad =>
      {| files_sql := files_sql prev; files_ad := st; files_backup := files_backup prev |}
  | slot_backup =>
      {| files_sql := files_sql prev; files_ad := files_ad prev; files_backup := st |}
  end.

Section Upload.
Variable match_values : string -> list string.

(** The [onload] callback of [handleFileUpload], once the file's [text] has
    been read. *)
Definition handleFileUpload (prev : Files) (type : Slot) (text : string) : Files :=
  let parsed := parseCSV match_values text in
  let validation := validateFile type (Some parsed) in
  set_slot prev type
    {| file_data := Some (data parsed);
       file_valid := valid validation;
       file_error := error validation |}.

(** The state reached by a sequence of uploads. *)
Definition uploads (events : list (Slot * string)) : Files :=
  fold_left (fun files '(type, text) => handleFileUpload files type text)
            events initial_files.

(** The [disabled] attribute of the "Generate Risk Report" button. *)
Definition audit_disabled (files : Files) : bool :=
  negb (file_valid (files_sql files)) && negb (file_valid (files_ad files))
  && negb (file_valid (files_backup files)).
End Upload.

(** ** handleDownloadTxt of version 1.4.0 *)

(** The text of a severity in a template. *)
Definition severity_text (s : Severity) : string :=
  match s with
  | UNKNOWN => "UNKNOWN"
  | LOW => "LOW"
  | MEDIUM => "MEDIUM"
  | HIGH => "HIGH"
  | CRITICAL => "CRITICAL"
  end.

(** The lines joined into the downloaded summary; [today] is what
    [new Date().toLocaleDateString()] prints. *)
Definition summaryLines (clientName today : string) (report : Report)
  : list string :=
  let lines :=
    ["DATA FORTRESS REPORT"; "Client: " +:+ clientName; "Date: " +:+ today;
     "RISK: " +:+ severity_text (overall report);
     String "010"%char "FINDINGS:"] in
  let lines :=
    if bool_decide (status (backup report) = Status.FAIL)
    then lines ++ ["- BACKUPS FAILED (Gap: " +:+ toFixed (gap (backup report)) 1 +:+ "h)"]
    else lines in
  let lines := lines ++ map (fun f => "- SQL: " +:+ title f) (findings (sql report)) in
  let lines := lines ++ map (fun f => "- AD: " +:+ title f) (findings (ad report)) in
  lines.

(** ** More vocabulary *)

(** The database a record names, "Unknown" when it names none. *)
Definition database_name (row : Row) : string :=
  if String.eqb (field row "DatabaseName") EmptyString then "Unknown"
  else field row "DatabaseName".

(** The finding the SQL rules give for an actionable record. *)
Inductive sql_finding_of (row : Row) (f : Finding) : Prop :=
| sql_finding_backups :
    sql_class row CRITICAL -> type f = CRITICAL ->
    title f = "No Backups: " +:+ database_name row ->
    desc f = VStr ("Database '" +:+ database_name row +:+
                   "' has not been backed up recently. " +:+ field row "Details") ->
    sql_finding_of row f
| sql_finding_corruption :
    sql_class row HIGH -> type f = HIGH ->
    title f = "Corruption Risk: " +:+ database_name row ->
    desc f = VStr ("DBCC CHECKDB never run on '" +:+ database_name row +:+ "'.") ->
    sql_finding_of row f
| sql_finding_config :
    sql_class row MEDIUM -> type f = MEDIUM ->
    title f = "Config Issue: " +:+ lower (field row "Finding") ->
    desc f = VStr (field row "Details") ->
    sql_finding_of row f.

(** A text without a colon. *)
Definition colon_free (s : string) : Prop :=
  forall c, In c (list_ascii_of_string s) -> c <> ":"%char.

(** The account named by a flagged row, as the plan lists it. *)
Definition listed_account (row : Row) (v : JsVal) : Prop :=
  v = VStr (" " +:+ field row "SamAccountName").

(** The date [d] is that of the newest record among those that satisfy [P]:
    there is none when no record satisfies [P]. *)
Definition newest_of (Date_parse : string -> option Z) (P : Row -> Prop)
    (rows : list Row) (d : option JsDate) : Prop :=
  match d with
  | None => forall row, In row rows -> ~ P row
  | Some d =>
      exists t, getTime d = Some t /\
        (exists row, In row rows /\ P row /\ timestamp Date_parse row = Some t) /\
        forall row t', In row rows -> P row ->
                       timestamp Date_parse row = Some t' -> t' <= t
  end.

(** Every record has a timestamp that parses. *)
Definition all_dated (Date_parse : string -> option Z) (rows : list Row) : Prop :=
  forall row, In row rows -> timestamp Date_parse row <> None.

(** [runAudit] of version 1.4.0 reads the [data] of the three entries of
    the upload state. *)
Definition runAudit_files (Date_parse : string -> option Z) (now : JsDate)
    (files : Files) : Result Report :=
  runAudit Date_parse now (file_data (files_sql files))
    (file_data (files_ad files)) (file_data (files_backup files)).

(** * Proofs *)

Example parseInt_examples :
  parseInt (VStr "10") = Some 10 /\
  parseInt (VStr "  -7px") = Some (-7) /\
  parseInt (VStr "0x1F") = Some 31 /\
  parseInt (VStr "high") = None /\
  parseInt (VStr "") = None /\
  parseInt (VNum 999) = Some 999 /\
  parseInt (VStr "0x") = None.
Proof. vm_compute. repeat split. Qed.

Example Date_parse_iso_examples :
  Date_parse_iso "1970-01-01T00:00:00Z" = Some 0 /\
  Date_parse_iso "2025-01-01T00:00:00Z" = Some 1735689600000 /\
  Date_parse_iso "2024-02-29T23:59:59Z" = Some 1709251199000 /\
  Date_parse_iso "2025-02-29T00:00:00Z" = None /\
  Date_parse_iso "" = None.
Proof. vm_compute. repeat split. Qed.

(** Without its [|| ''] guard a method call on a missing column raises. *)
Example unguarded_call_raises :
  toLowerCase (get (mkRow [("Priority", "10")]) "Finding")
  = Throw (TypeError "Cannot read properties of undefined") /\
  toLowerCase (get (mkRow [("Priority", "10")]) "Finding" ||| VStr "") = Ok "".
Proof. split; reflexivity. Qed.

(** The end-to-end scenario of the specification. *)
Example end_to_end_scenario :
  exists r,
    runAudit Date_parse_iso sample_now
      (Some [sql_row_backups]) (Some [ad_row_svc]) (Some [backup_row_failed])
    = Ok r /\
    overall r = CRITICAL /\
    map title (findings (sql r)) = ["No Backups: HR"] /\
    map title (findings (ad r)) = ["Unsecured Admin: svc_backup"] /\
    status (backup r) = Status.FAIL /\
    failCount (backup r) = 1%nat.
Proof. eexists. split; [vm_compute; reflexivity|]. repeat split. Qed.

Example toFixed_examples :
  toFixed (Fin (5 # 2)) 0 = "3" /\
  toFixed (Fin (-(1 # 4))) 0 = "-0" /\
  toFixed (Fin (482136 # 1)) 0 = "482136" /\
  toFixed (Fin (7 # 4)) 1 = "1.8" /\
  toFixed (Fin (201 # 100)) 2 = "2.01" /\
  toFixed (Fin (1001 # 1000)) 3 = "1.001" /\
  toFixed NaN 0 = "NaN".
Proof. vm_compute. repeat split. Qed.

(** ** Severities *)

Lemma sev_max_comm a b : sev_max a b = sev_max b a.
Proof. destruct a, b; reflexivity. Qed.

Lemma sev_max_assoc a b c : sev_max a (sev_max b c) = sev_max (sev_max a b) c.
Proof. destruct a, b, c; reflexivity. Qed.

Lemma sev_max_known a b : sev_max a b <> UNKNOWN.
Proof. destruct a, b; discriminate. Qed.

Lemma sev_max_LOW_l a : sev_max LOW a = as_low a.
Proof. destruct a; reflexivity. Qed.

Lemma sev_max_rank a b : rank (sev_max a b) = Nat.max (rank a) (rank b).
Proof. destruct a, b; reflexivity. Qed.

Lemma sev_max_CRITICAL a b :
  sev_max a b = CRITICAL <-> a = CRITICAL \/ b = CRITICAL.
Proof. destruct a, b; cbn; intuition discriminate. Qed.

Lemma sev_list_max_known l : sev_list_max l <> UNKNOWN.
Proof. destruct l; [discriminate | apply sev_max_known]. Qed.

Lemma sev_list_max_app l1 l2 :
  sev_list_max (l1 ++ l2) = sev_max (sev_list_max l1) (sev_list_max l2).
Proof.
  induction l1 as [|a l1 IH].
  - change (sev_list_max l2 = sev_max LOW (sev_list_max l2)).
    rewrite sev_max_LOW_l. pose proof (sev_list_max_known l2) as H.
    now destruct (sev_list_max l2).
  - change (sev_max a (sev_list_max (l1 ++ l2)) =
            sev_max (sev_max a (sev_list_max l1)) (sev_list_max l2)).
    rewrite IH. apply sev_max_assoc.
Qed.

Lemma sev_list_max_CRITICAL l : sev_list_max l = CRITICAL <-> In CRITICAL l.
Proof.
  induction l as [|a l IH]; cbn.
  - split; [discriminate | tauto].
  - fold (sev_list_max l). rewrite sev_max_CRITICAL, IH. intuition.
Qed.

Lemma sev_list_max_perm l1 l2 :
  Permutation l1 l2 -> sev_list_max l1 = sev_list_max l2.
Proof.
  induction 1 as [|a l1 l2 _ IH|a b l|l1 l2 l3 _ IH1 _ IH2]; cbn.
  - reflexivity.
  - unfold sev_list_max in IH. now rewrite IH.
  - rewrite !sev_max_assoc. f_equal. apply sev_max_comm.
  - congruence.
Qed.

(** ** Text *)

Lemma lower_ascii_capital c :
  (65 <= nat_of_ascii c <= 90)%nat ->
  lower_ascii c = ascii_of_nat (nat_of_ascii c + 32).
Proof.
  intros [H1 H2]. unfold lower_ascii.
  apply Nat.leb_le in H1, H2. now rewrite H1, H2.
Qed.

Lemma lower_ascii_other c :
  ~ (65 <= nat_of_ascii c <= 90)%nat -> lower_ascii c = c.
Proof.
  intros H. unfold lower_ascii.
  destruct (65 <=? nat_of_ascii c)%nat eqn:H1;
    destruct (nat_of_ascii c <=? 90)%nat eqn:H2; cbn; try reflexivity.
  apply Nat.leb_le in H1, H2. lia.
Qed.

(** A small letter [k] is matched by itself and by its capital only. *)
Lemma lower_ascii_same_letter k c :
  lower_ascii k = k -> lower_ascii c = k <-> same_letter k c.
Proof.
  intros Hk. unfold same_letter, capital_of.
  destruct (decide (65 <= nat_of_ascii c <= 90)%nat) as [Hc|Hc].
  - rewrite (lower_ascii_capital c Hc). split.
    + intros <-. right. split; [exact Hc|].
      apply nat_ascii_embedding. lia.
    + intros [->|[_ Hn]].
      * rewrite <- Hk at 2. now rewrite (lower_ascii_capital k Hc).
      * rewrite <- Hn. apply ascii_nat_embedding.
  - rewrite (lower_ascii_other c Hc). split.
    + intros ->. now left.
    + intros [->|[Hc' _]]; [reflexivity | contradiction].
Qed.

Lemma small_letters_cons k kw :
  small_letters (String k kw) -> lower_ascii k = k /\ small_letters kw.
Proof. unfold small_letters. cbn. intros H. now injection H. Qed.

Lemma starts_with_lower kw :
  small_letters kw -> forall s, starts_with kw (lower s) = true <-> ci_prefix kw s.
Proof.
  induction kw as [|k kw IH]; intros Hkw s.
  - split; [constructor | reflexivity].
  - apply small_letters_cons in Hkw as [Hk Hkw].
    destruct s as [|c s]; cbn.
    + split; [discriminate | inversion 1].
    + rewrite andb_true_iff, (IH Hkw s), Ascii.eqb_eq.
      assert (k = lower_ascii c <-> same_letter k c) as ->.
      { rewrite <- (lower_ascii_same_letter k c Hk). split; congruence. }
      split.
      * intros [H1 H2]. now constructor.
      * inversion 1; subst. now split.
Qed.

(** [s.toLowerCase().includes(kw)] is case-insensitive containment. *)
Lemma includes_lower kw s :
  small_letters kw -> includes (lower s) kw = true <-> contains_ci kw s.
Proof.
  intros Hkw. induction s as [|c s IH].
  - cbn [lower includes]. rewrite orb_false_r.
    change EmptyString with (lower EmptyString) at 1.
    rewrite (starts_with_lower kw Hkw). split.
    + now constructor.
    + inversion 1; assumption.
  - cbn [lower includes]. rewrite orb_true_iff, IH.
    change (String (lower_ascii c) (lower s)) with (lower (String c s)).
    rewrite (starts_with_lower kw Hkw). split.
    + intros [H|H]; [now apply contains_here | now apply contains_later].
    + inversion 1; subst; [now left | now right].
Qed.

Lemma includes_lower_false kw s :
  small_letters kw -> includes (lower s) kw = false <-> ~ contains_ci kw s.
Proof.
  intros Hkw. rewrite <- (includes_lower kw s Hkw).
  destruct (includes (lower s) kw); split; intros H; congruence.
Qed.

(** ** Property reads *)

Lemma get_or_empty (row : Row) key :
  get row key ||| VStr "" = VStr (field row key).
Proof.
  unfold get, field, js_or. destruct (row !! key) as [s|]; cbn; [|reflexivity].
  destruct (String.eqb_spec s ""); cbn; [now subst | reflexivity].
Qed.

Lemma toLowerCase_field (row : Row) key :
  toLowerCase (get row key ||| VStr "") = Ok (lower (field row key)).
Proof. now rewrite get_or_empty. Qed.

Lemma get_or_string (row : Row) key d :
  is_string (get row key ||| VStr d).
Proof.
  unfold get, js_or, is_string. destruct (row !! key) as [s|]; cbn; [|eauto].
  destruct (negb (String.eqb s "")); eauto.
Qed.

(** ** Accumulating callbacks *)

(** A callback that appends the findings [out row] and raises the risk to
    the maximum does so over the whole array. *)
Section Collect.
Variable step : list Finding * Severity -> Row -> Result (list Finding * Severity).
Variable out : Row -> list Finding.
Hypothesis step_run : forall fs r row,
  r <> UNKNOWN ->
  step (fs, r) row = Ok (fs ++ out row, sev_max r (sev_list_max (map type (out row)))).

Lemma forEach_collect (rows : list Row) : forall fs r,
  r <> UNKNOWN ->
  forEach step rows (fs, r)
  = Ok (fs ++ flat_map out rows,
        sev_max r (sev_list_max (map type (flat_map out rows)))).
Proof.
  induction rows as [|row rows IH]; intros fs r Hr.
  - cbn. rewrite app_nil_r. now destruct r.
  - cbn [forEach flat_map]. rewrite (step_run fs r row Hr).
    unfold mbind, Result_bind. rewrite IH by apply sev_max_known.
    rewrite <- app_assoc, map_app, sev_list_max_app, sev_max_assoc.
    reflexivity.
Qed.

(** Started at [LOW] on a non-empty array. *)
Lemma forEach_collect_LOW (rows : list Row) :
  forEach step rows ([], LOW)
  = Ok (flat_map out rows, sev_list_max (map type (flat_map out rows))).
Proof.
  rewrite forEach_collect by discriminate. rewrite sev_max_LOW_l.
  pose proof (sev_list_max_known (map type (flat_map out rows))) as H.
  now destruct (sev_list_max _).
Qed.
End Collect.

(** ** analyzeSQL *)

Lemma small_backups_not_performed : small_letters "backups not performed".
Proof. reflexivity. Qed.

Lemma small_corruption_check : small_letters "corruption check".
Proof. reflexivity. Qed.

(** The test [priority <= 50] of the code selects the actionable records:
    a missing or empty [Priority] becomes 999, one that does not parse
    becomes [NaN], and neither is at most 50. *)
Lemma actionable_iff (row : Row) :
  num_le (parseInt (get row "Priority" ||| VNum 999)) 50 = true <-> actionable row.
Proof.
  unfold actionable, get, js_or. destruct (row !! "Priority") as [p|] eqn:Hp; cbn.
  - destruct (String.eqb_spec p "") as [->|Hne]; cbn.
    + split; [discriminate|]. intros (p & n & [= <-] & Hn & _). discriminate.
    + unfold parseInt, ToString. split.
      * destruct (parseInt_string p) as [n|] eqn:Hn; [|discriminate].
        cbn. intros H%Z.leb_le. eauto.
      * intros (p' & n & [= <-] & -> & H). cbn. now apply Z.leb_le.
  - split; [discriminate|]. intros (p & n & [=] & _).
Qed.

Lemma sql_class_fun (row : Row) s1 s2 :
  sql_class row s1 -> sql_class row s2 -> s1 = s2.
Proof. destruct 1; destruct 1; tauto. Qed.

Lemma sql_class_actionable (row : Row) s : sql_class row s -> actionable row.
Proof. now destruct 1. Qed.

(** A row that is not actionable adds nothing; an actionable row adds one
    well-formed finding, of the severity the rules give to the row. *)
Lemma sql_out_spec (row : Row) :
  (~ actionable row /\ sql_out row = []) \/
  (exists f, sql_out row = [f] /\ sql_class row (type f) /\ wf_finding f).
Proof.
  unfold sql_out, sql_row. rewrite toLowerCase_field.
  unfold mbind, Result_bind.
  destruct (num_le _ 50) eqn:Hact.
  - apply actionable_iff in Hact. right.
    destruct (includes _ "backups not performed") eqn:H1.
    + eexists. split; [reflexivity|]. cbn. split.
      * constructor; [assumption|].
        now apply (includes_lower _ _ small_backups_not_performed).
      * split; [cbn; tauto | eexists; reflexivity].
    + apply (includes_lower_false _ _ small_backups_not_performed) in H1.
      destruct (includes _ "corruption check") eqn:H2.
      * eexists. split; [reflexivity|]. cbn. split.
        -- constructor; try assumption.
           now apply (includes_lower _ _ small_corruption_check).
        -- split; [cbn; tauto | eexists; reflexivity].
      * apply (includes_lower_false _ _ small_corruption_check) in H2.
        eexists. split; [reflexivity|]. cbn. split.
        -- now constructor.
        -- split; [cbn; tauto | apply get_or_string].
  - left. split; [|reflexivity].
    intros H%actionable_iff. congruence.
Qed.

(** One call of the callback: the findings of the row are appended and the
    risk level is raised to the maximum. *)
Lemma sql_row_run fs r (row : Row) :
  r <> UNKNOWN ->
  sql_row (fs, r) row
  = Ok (fs ++ sql_out row, sev_max r (sev_list_max (map type (sql_out row)))).
Proof.
  intros Hr. unfold sql_out, sql_row. rewrite toLowerCase_field.
  unfold mbind, Result_bind.
  destruct (num_le _ 50).
  - destruct (includes _ "backups not performed").
    + cbn. now destruct r.
    + destruct (includes _ "corruption check"); cbn; now destruct r.
  - cbn. rewrite app_nil_r. now destruct r.
Qed.

(** The verdict of [analyzeSQL], in closed form. *)
Lemma analyzeSQL_run (data : Data) :
  analyzeSQL data
  = Ok {| risk := match records data with
                  | [] => UNKNOWN
                  | _ => sev_list_max (map type (flat_map sql_out (records data)))
                  end;
          findings := flat_map sql_out (records data) |}.
Proof.
  destruct data as [[|row rows]|]; try reflexivity.
  unfold analyzeSQL, records, default.
  now rewrite (forEach_collect_LOW sql_row sql_out sql_row_run).
Qed.

Lemma sql_out_CRITICAL (rows : list Row) :
  In CRITICAL (map type (flat_map sql_out rows)) <->
  exists row, In row rows /\ sql_class row CRITICAL.
Proof.
  rewrite in_map_iff. split.
  - intros (f & Hf & Hin). apply in_flat_map in Hin as (row & Hrow & Hin).
    exists row. split; [assumption|].
    destruct (sql_out_spec row) as [[_ Hout]|(f' & Hout & Hcl & _)];
      rewrite Hout in Hin; cbn in Hin; [tauto|].
    destruct Hin as [->|[]]. now rewrite <- Hf.
  - intros (row & Hrow & Hcl).
    destruct (sql_out_spec row) as [[Hna _]|(f & Hout & Hcl' & _)].
    + now apply sql_class_actionable in Hcl.
    + exists f. split; [exact (sql_class_fun _ _ _ Hcl' Hcl)|].
      apply in_flat_map. exists row. split; [assumption|].
      rewrite Hout. now left.
Qed.

(** C2. For every sequence of SQL records (or no data at all) [analyzeSQL]
    returns a verdict, and the risk of that verdict is [CRITICAL] if and
    only if some record is actionable (its [Priority] parses to an integer
    that is at most 50) and has a [Finding] text that contains
    "backups not performed", case-insensitively. *)
Theorem sql_critical_iff_backups_not_performed (data : Data) :
  exists v, analyzeSQL data = Ok v /\
    (risk v = CRITICAL <->
     exists row, In row (records data) /\ actionable row /\
                 finding_mentions "backups not performed" row).
Proof.
  eexists. split; [apply analyzeSQL_run|]. cbn [risk].
  transitivity (exists row, In row (records data) /\ sql_class row CRITICAL).
  - rewrite <- sql_out_CRITICAL, <- sev_list_max_CRITICAL.
    destruct (records data); [|reflexivity].
    cbn. split; discriminate.
  - split; intros (row & Hin & H); exists row; (split; [assumption|]).
    + now inversion H.
    + destruct H. now constructor.
Qed.

(** C3. For every sequence of SQL records and every permutation of it,
    [analyzeSQL] returns on both, with the same risk level; the two
    findings lists hold the same findings, possibly in another order. *)
Theorem sql_order_independent (rows rows' : list Row) :
  Permutation rows rows' ->
  exists v v',
    analyzeSQL (Some rows) = Ok v /\ analyzeSQL (Some rows') = Ok v' /\
    risk v = risk v' /\ Permutation (findings v) (findings v').
Proof.
  intros Hp. do 2 eexists.
  split; [apply analyzeSQL_run|]. split; [apply analyzeSQL_run|].
  cbn [risk findings records default].
  assert (Permutation (flat_map sql_out rows) (flat_map sql_out rows')) as Hf
    by now apply Permutation_flat_map.
  split; [|exact Hf].
  destruct rows as [|r rows], rows' as [|r' rows'].
  - reflexivity.
  - now apply Permutation_nil in Hp.
  - symmetry in Hp. now apply Permutation_nil in Hp.
  - apply sev_list_max_perm. now apply Permutation_map.
Qed.

(** C3 at two records, one critical and one medium, in both orders. *)
Lemma sql_order_independent_witness :
  Permutation [sql_row_backups; sql_row_shrink] [sql_row_shrink; sql_row_backups] /\
  exists v v',
    analyzeSQL (Some [sql_row_backups; sql_row_shrink]) = Ok v /\
    analyzeSQL (Some [sql_row_shrink; sql_row_backups]) = Ok v' /\
    risk v = risk v' /\ Permutation (findings v) (findings v').
Proof.
  split; [apply perm_swap|].
  apply (sql_order_independent [sql_row_backups; sql_row_shrink]
                               [sql_row_shrink; sql_row_backups]).
  apply perm_swap.
Defined.

(** ** runAudit *)

(** C1. For every triple of classifier outputs the overall severity is the
    maximum, under [LOW < MEDIUM < HIGH < CRITICAL] with [UNKNOWN] counted
    as [LOW], of the SQL risk, the AD risk and the backup status read as
    [CRITICAL] when it is [FAIL] and as [LOW] otherwise.  In particular it
    is at least the SQL risk and at least the AD risk, and it is [CRITICAL]
    whenever the backup status is [FAIL]. *)
Theorem overall_is_maximum (sqlRisk adRisk : Severity) (backupStatus : Status.t) :
  overallRisk sqlRisk adRisk backupStatus
  = sev_max sqlRisk (sev_max adRisk (backup_severity backupStatus)) /\
  (rank sqlRisk <= rank (overallRisk sqlRisk adRisk backupStatus))%nat /\
  (rank adRisk <= rank (overallRisk sqlRisk adRisk backupStatus))%nat /\
  overallRisk sqlRisk adRisk Status.FAIL = CRITICAL.
Proof.
  destruct sqlRisk, adRisk, backupStatus; vm_compute;
    repeat split; repeat constructor.
Qed.

(** ** analyzeAD *)

Lemma lower_app a b : lower (a +:+ b) = lower a +:+ lower b.
Proof.
  induction a as [|c a IH]; [reflexivity|].
  change (String (lower_ascii c) (lower (a +:+ b))
          = String (lower_ascii c) (lower a +:+ lower b)).
  now rewrite IH.
Qed.

Lemma small_admin : small_letters "admin".
Proof. reflexivity. Qed.

Lemma small_redFlagKeywords kw : In kw redFlagKeywords -> small_letters kw.
Proof. cbn. intuition (subst; reflexivity). Qed.

(** The keyword loop sets the flag as soon as one keyword occurs. *)
Lemma forEach_keywords text (kws : list string) : forall flag,
  forEach (fun (isRedFlag : bool) keyword =>
             Ok (if includes text keyword then true else isRedFlag)) kws flag
  = Ok (flag || existsb (includes text) kws).
Proof.
  induction kws as [|kw kws IH]; intros flag; cbn.
  - now rewrite orb_false_r.
  - unfold mbind, Result_bind. rewrite IH.
    destruct (includes text kw), flag; reflexivity.
Qed.

(** The two tests of the code select the red-flag rows. *)
Lemma red_flag_iff (row : Row) :
  includes (lower (field row "GroupName")) "admin"
  && existsb (includes (lower (field row "Name") +:+ " " +:+
                        lower (field row "SamAccountName")))
             redFlagKeywords = true
  <-> red_flag row.
Proof.
  unfold red_flag.
  rewrite andb_true_iff, (includes_lower _ _ small_admin), existsb_exists.
  change (lower (field row "Name") +:+ " " +:+ lower (field row "SamAccountName"))
    with (lower (field row "Name") +:+ lower " " +:+ lower (field row "SamAccountName")).
  rewrite <- !lower_app.
  split; intros [Hg (kw & Hin & Hkw)]; (split; [exact Hg|]); exists kw;
    (split; [exact Hin|]);
    now apply (includes_lower _ _ (small_redFlagKeywords kw Hin)).
Qed.

Lemma get_ToString (row : Row) key s :
  row !! key = Some s -> ToString (get row key) = s.
Proof. unfold get. now intros ->. Qed.

(** A row that is not flagged adds nothing; a flagged row adds one
    [CRITICAL] finding named after its account. *)
Lemma ad_out_spec (row : Row) :
  (~ red_flag row /\ ad_out row = []) \/
  (exists f, ad_out row = [f] /\ red_flag row /\ unsecured_admin row f /\
             wf_finding f).
Proof.
  pose proof (red_flag_iff row) as Hiff.
  unfold ad_out, ad_row. rewrite !toLowerCase_field.
  unfold mbind, Result_bind.
  destruct (includes _ "admin") eqn:Hg.
  - rewrite forEach_keywords. cbn [orb].
    destruct (existsb _ redFlagKeywords) eqn:Hk.
    + right. eexists. split; [reflexivity|]. split; [now apply Hiff|].
      split; [split; [reflexivity|]; intros sam Hsam; cbn [title];
              now rewrite (get_ToString _ _ _ Hsam)|].
      split; [cbn; tauto | eexists; reflexivity].
    + left. split; [|reflexivity]. intros H%Hiff. discriminate.
  - left. split; [|reflexivity]. intros H%Hiff. discriminate.
Qed.

Lemma ad_row_run fs r (row : Row) :
  r <> UNKNOWN ->
  ad_row (fs, r) row
  = Ok (fs ++ ad_out row, sev_max r (sev_list_max (map type (ad_out row)))).
Proof.
  intros Hr. unfold ad_out, ad_row. rewrite !toLowerCase_field.
  unfold mbind, Result_bind.
  destruct (includes _ "admin").
  - rewrite !forEach_keywords. cbn [orb].
    destruct (existsb _ redFlagKeywords); cbn.
    + now destruct r.
    + rewrite app_nil_r. now destruct r.
  - cbn. rewrite app_nil_r. now destruct r.
Qed.

(** The verdict of [analyzeAD], in closed form. *)
Lemma analyzeAD_run (data : Data) :
  analyzeAD data
  = Ok {| risk := match records data with
                  | [] => UNKNOWN
                  | _ => sev_list_max (map type (flat_map ad_out (records data)))
                  end;
          findings := flat_map ad_out (records data) |}.
Proof.
  destruct data as [[|row rows]|]; try reflexivity.
  unfold analyzeAD, records, default.
  now rewrite (forEach_collect_LOW ad_row ad_out ad_row_run).
Qed.

Lemma ad_out_emitted (rows : list Row) :
  emitted red_flag unsecured_admin rows (flat_map ad_out rows).
Proof.
  induction rows as [|row rows IH]; cbn; [constructor|].
  destruct (ad_out_spec row) as [[Hn ->]|(f & -> & Hf & Hu & _)]; cbn.
  - now apply emitted_skip.
  - now apply emitted_hit.
Qed.

Lemma ad_out_CRITICAL (rows : list Row) :
  In CRITICAL (map type (flat_map ad_out rows)) <->
  exists row, In row rows /\ red_flag row.
Proof.
  rewrite in_map_iff. split.
  - intros (f & Hf & Hin). apply in_flat_map in Hin as (row & Hrow & Hin).
    exists row. split; [assumption|].
    destruct (ad_out_spec row) as [[_ Hout]|(f' & _ & Hfl & _)];
      [rewrite Hout in Hin; destruct Hin | exact Hfl].
  - intros (row & Hrow & Hfl).
    destruct (ad_out_spec row) as [[Hn _]|(f & Hout & _ & [Hty _] & _)];
      [contradiction|].
    exists f. split; [exact Hty|].
    apply in_flat_map. exists row. split; [assumption|].
    rewrite Hout. now left.
Qed.

Lemma ad_out_types (rows : list Row) :
  Forall (fun s => s = CRITICAL) (map type (flat_map ad_out rows)).
Proof.
  induction rows as [|row rows IH]; cbn; [constructor|].
  rewrite map_app. apply Forall_app. split; [|exact IH].
  destruct (ad_out_spec row) as [[_ ->]|(f & -> & _ & [Hty _] & _)]; cbn;
    repeat constructor. exact Hty.
Qed.

(** *** Keywords and the space between the two names *)

Lemma ci_prefix_app kw a b : ci_prefix kw a -> ci_prefix kw (a +:+ b).
Proof. induction 1; cbn; now constructor. Qed.

Lemma contains_ci_app_l kw a b : contains_ci kw a -> contains_ci kw (a +:+ b).
Proof.
  induction 1 as [s H|c s _ IH]; cbn.
  - apply contains_here. now apply ci_prefix_app.
  - now apply contains_later.
Qed.

Lemma contains_ci_app_r kw a b : contains_ci kw b -> contains_ci kw (a +:+ b).
Proof. intros H. induction a as [|c a IH]; cbn; [exact H | now apply contains_later]. Qed.

Lemma same_letter_space k : same_letter k " " -> k = " "%char.
Proof.
  intros [H|[[H _] _]]; [now symmetry|].
  apply Nat.leb_le in H. vm_compute in H. discriminate.
Qed.

(** A match of a keyword without a space cannot run over the space. *)
Lemma ci_prefix_before_space kw : forall a b,
  spaceless kw -> ci_prefix kw (a +:+ String " " b) -> ci_prefix kw a.
Proof.
  induction kw as [|k kw IH]; intros a b Hs H; [constructor|].
  destruct Hs as [Hk Hs].
  destruct a as [|c a]; cbn in H;
    inversion H as [|k' c' kw' s' Hsame Hrest]; subst.
  - now apply same_letter_space in Hsame.
  - constructor; [assumption | now apply (IH a b)].
Qed.

Lemma contains_ci_spaced kw a b :
  spaceless kw ->
  contains_ci kw (a +:+ " " +:+ b) <-> contains_ci kw a \/ contains_ci kw b.
Proof.
  intros Hs. split.
  - induction a as [|c a IH]; intros H.
    + inversion H as [s Hp|c s Hc]; subst.
      * left. apply contains_here.
        now apply (ci_prefix_before_space kw EmptyString b).
      * now right.
    + inversion H as [s Hp|c' s Hc]; subst.
      * left. apply contains_here.
        now apply (ci_prefix_before_space kw (String c a) b).
      * destruct (IH Hc) as [Ha|Hb]; [left; now apply contains_later | now right].
  - intros [H|H].
    + now apply contains_ci_app_l.
    + apply contains_ci_app_r. now apply (contains_ci_app_r kw " " b).
Qed.

Lemma spaceless_redFlagKeywords kw : In kw redFlagKeywords -> spaceless kw.
Proof. cbn. intuition (subst; cbn; intuition discriminate). Qed.

(** A row is flagged when a keyword occurs in its [Name] or in its
    [SamAccountName]. *)
Lemma red_flag_either (row : Row) :
  red_flag row <->
  contains_ci "admin" (field row "GroupName") /\
  exists kw, In kw redFlagKeywords /\
    (contains_ci kw (field row "Name") \/
     contains_ci kw (field row "SamAccountName")).
Proof.
  unfold red_flag.
  split; intros [Hg (kw & Hin & H)]; (split; [exact Hg|]); exists kw;
    (split; [exact Hin|]);
    now apply (contains_ci_spaced kw _ _ (spaceless_redFlagKeywords kw Hin)).
Qed.

(** Every flagged row has a keyword in the plain concatenation of the two
    names; the converse fails, see [ad_row_split] below. *)
Lemma red_flag_concat_of_red_flag (row : Row) :
  red_flag row -> red_flag_concat row.
Proof.
  intros [Hg (kw & Hin & [H|H])]%red_flag_either; (split; [exact Hg|]); exists kw;
    (split; [exact Hin|]).
  - now apply contains_ci_app_l.
  - now apply contains_ci_app_r.
Qed.

(** C4 (amended). For every sequence of AD records [analyzeAD] returns a
    verdict.  Its findings are, in input order, one finding per row whose
    [GroupName] contains "admin" and whose [Name] and [SamAccountName],
    joined by one space, contain a red-flag keyword (all of this
    case-insensitively), and none for the other rows; each finding is
    [CRITICAL] and titled "Unsecured Admin: " followed by the row's
    [SamAccountName] (for a row that has that column).  The risk is [CRITICAL] exactly when some row is
    flagged, [UNKNOWN] exactly when there is no row, and [LOW] otherwise. *)
Theorem ad_findings_are_red_flags (data : Data) :
  exists v, analyzeAD data = Ok v /\
    emitted red_flag unsecured_admin (records data) (findings v) /\
    (risk v = CRITICAL <-> exists row, In row (records data) /\ red_flag row) /\
    (risk v = UNKNOWN <-> records data = []) /\
    In (risk v) [UNKNOWN; LOW; CRITICAL].
Proof.
  eexists. split; [apply analyzeAD_run|]. cbn [risk findings].
  split; [apply ad_out_emitted|].
  pose proof (ad_out_CRITICAL (records data)) as Hc.
  pose proof (ad_out_types (records data)) as Hty.
  rewrite <- sev_list_max_CRITICAL in Hc.
  pose proof (sev_list_max_known (map type (flat_map ad_out (records data)))) as Hk.
  destruct (records data) as [|row rows] eqn:Hrows.
  - repeat split; try discriminate; cbn; try tauto.
    intros (row & [] & _).
  - split; [exact Hc|]. split; [split; [contradiction | discriminate]|].
    destruct (map type (flat_map ad_out (row :: rows))) as [|s l].
    + cbn. tauto.
    + inversion Hty as [|? ? -> _]. cbn. destruct (fold_right sev_max LOW l); cbn; tauto.
Qed.

(** C4, as stated, fails: a row of an admin group whose [Name] and
    [SamAccountName] contain a keyword only across their junction
    ("te" + "st") satisfies the stated condition, and no finding is
    emitted for it. *)
Lemma ad_concatenation_counterexample :
  red_flag_concat ad_row_split /\
  analyzeAD (Some [ad_row_split]) = Ok {| risk := LOW; findings := [] |}.
Proof.
  split; [|reflexivity].
  split.
  - now apply (includes_lower "admin" _ small_admin).
  - exists "test". split; [cbn; tauto|].
    now apply (includes_lower "test").
Qed.

(** C8. On an empty sequence each classifier returns [UNKNOWN] with no
    findings (no failure count), and the three [UNKNOWN] verdicts fuse to
    [LOW]; the same holds when no data was supplied at all. *)
Theorem empty_inputs_are_unknown (Date_parse : string -> option Z) (now : JsDate) :
  analyzeSQL (Some []) = Ok {| risk := UNKNOWN; findings := [] |} /\
  analyzeAD (Some []) = Ok {| risk := UNKNOWN; findings := [] |} /\
  analyzeBackups Date_parse now (Some [])
  = Ok {| status := Status.UNKNOWN; gap := Fin 0; lastSuccess := None;
          latestLog := None; failCount := 0 |} /\
  analyzeSQL None = analyzeSQL (Some []) /\
  analyzeAD None = analyzeAD (Some []) /\
  analyzeBackups Date_parse now None = analyzeBackups Date_parse now (Some []) /\
  overallRisk UNKNOWN UNKNOWN Status.UNKNOWN = LOW /\
  exists r, runAudit Date_parse now (Some []) (Some []) (Some []) = Ok r /\
            overall r = LOW /\ risk (sql r) = UNKNOWN /\ risk (ad r) = UNKNOWN /\
            status (backup r) = Status.UNKNOWN.
Proof. repeat split. eexists. repeat split. Qed.

(** ** Counting and sorting *)

Lemma counted_fun {A} (P : A -> Prop) l : forall n m,
  counted P l n -> counted P l m -> n = m.
Proof.
  induction l as [|a l IH]; intros n m Hn Hm;
    inversion Hn; subst; inversion Hm; subst;
    try reflexivity; try contradiction; eauto.
Qed.

Lemma counted_ext {A} (P Q : A -> Prop) l n :
  (forall a, P a <-> Q a) -> counted P l n -> counted Q l n.
Proof.
  intros Hpq. induction 1 as [|a l n Ha _ IH|a l n Ha _ IH].
  - constructor.
  - apply counted_hit; [now apply Hpq | exact IH].
  - apply counted_skip; [now rewrite <- Hpq | exact IH].
Qed.

Lemma counted_map {A B} (f : A -> B) (P : B -> Prop) l n :
  counted P (map f l) n -> counted (fun a => P (f a)) l n.
Proof.
  revert n. induction l as [|a l IH]; intros n H; inversion H; subst.
  - constructor.
  - apply counted_hit; auto.
  - apply counted_skip; auto.
Qed.

Lemma counted_perm {A} (P : A -> Prop) l l' :
  Permutation l l' -> forall n, counted P l n -> counted P l' n.
Proof.
  induction 1 as [|a l l' _ IH|a b l|l1 l2 l3 _ IH1 _ IH2]; intros n H.
  - exact H.
  - inversion H; subst; [apply counted_hit | apply counted_skip]; auto.
  - inversion H as [|? ? ? Hb H'|? ? ? Hb H']; subst;
      inversion H' as [|? ? ? Ha H''|? ? ? Ha H'']; subst;
      repeat (first [apply counted_hit; [assumption|]
                    | apply counted_skip; [assumption|]]);
      assumption.
  - auto.
Qed.

Lemma counted_le {A} (P : A -> Prop) l n : counted P l n -> (n <= length l)%nat.
Proof. induction 1; cbn; lia. Qed.

Section SortFacts.
Context {A : Type} (comparefn : A -> A -> option Z).

Lemma sort_insert_perm x l : Permutation (sort_insert comparefn x l) (x :: l).
Proof.
  induction l as [|y l IH]; cbn; [reflexivity|].
  destruct (sorts_before comparefn y x); [|reflexivity].
  rewrite IH. apply perm_swap.
Qed.

(** Whatever the comparator, sorting rearranges the array. *)
Lemma Array_sort_perm l : Permutation (Array_sort comparefn l) l.
Proof.
  induction l as [|x l IH]; cbn; [reflexivity|].
  rewrite sort_insert_perm. now constructor.
Qed.

Lemma Array_sort_nil l : Array_sort comparefn l = [] -> l = [].
Proof.
  intros H. apply Permutation_nil. rewrite <- H. apply Array_sort_perm.
Qed.
End SortFacts.

(** When every entry is dated the comparator is consistent, and the
    sorted array runs from the newest entry to the oldest. *)
Lemma sort_insert_HdRel (y x : CleanRow) l :
  not_older y x -> HdRel not_older y l ->
  HdRel not_older y (sort_insert by_date_desc x l).
Proof.
  intros Hyx Hl. destruct l as [|z l]; cbn; [now constructor|].
  destruct (sorts_before by_date_desc z x); constructor;
    [now inversion Hl | exact Hyx].
Qed.

Lemma sort_insert_sorted (x : CleanRow) l :
  dated x -> Forall dated l -> Sorted not_older l ->
  Sorted not_older (sort_insert by_date_desc x l).
Proof.
  intros Hx Hl Hs. induction l as [|y l IH]; cbn.
  - repeat constructor.
  - apply Forall_cons_iff in Hl as [Hy Hl]. apply Sorted_inv in Hs as [Hs Hd].
    unfold sorts_before, by_date_desc, date_sub, dated in *.
    destruct (getTime (date x)) as [tx|] eqn:Ex; [|contradiction].
    destruct (getTime (date y)) as [ty|] eqn:Ey; [|contradiction].
    destruct (Z.ltb_spec (tx - ty) 0).
    + constructor; [now apply IH|].
      apply sort_insert_HdRel; [|exact Hd].
      exists ty, tx. repeat split; try assumption. lia.
    + constructor; [now constructor|]. constructor.
      exists tx, ty. repeat split; try assumption. lia.
Qed.

Lemma Array_sort_sorted (l : list CleanRow) :
  Forall dated l -> Sorted not_older (Array_sort by_date_desc l).
Proof.
  induction 1 as [|x l Hx Hl IH]; cbn; [constructor|].
  apply sort_insert_sorted; [exact Hx | | exact IH].
  now rewrite Array_sort_perm.
Qed.

(** ** analyzeBackups *)

Section BackupFacts.
Variable Date_parse : string -> option Z.
Variable now : JsDate.

Lemma clean_row_run (row : Row) :
  clean_row Date_parse row = Ok (cleaned Date_parse row).
Proof.
  unfold clean_row, cleaned, timestamp. rewrite toLowerCase_field.
  unfold mbind, Result_bind. do 2 f_equal.
  unfold get, field, js_or, truthy, new_Date.
  destruct (row !! "TimeCreated") as [tc|], (row !! "TimeGenerated") as [tg|];
    cbn [default];
    repeat match goal with
           | |- context [String.eqb ?s ""] =>
               destruct (String.eqb_spec s ""); subst; cbn
           end;
    first [reflexivity | congruence].
Qed.

Lemma Array_map_clean (rows : list Row) :
  Array_map (clean_row Date_parse) rows = Ok (map (cleaned Date_parse) rows).
Proof.
  induction rows as [|row rows IH]; cbn; [reflexivity|].
  rewrite clean_row_run. unfold mbind, Result_bind. now rewrite IH.
Qed.

Lemma small_fail : small_letters "fail".
Proof. reflexivity. Qed.

Lemma small_error : small_letters "error".
Proof. reflexivity. Qed.

(** The two tests of the counting callback, on the entry made from a
    record. *)
Lemma is_failure_iff (row : Row) :
  let c := cleaned Date_parse row in
  includes (message c) "fail" || includes (message c) "error" = true
  <-> failure_record row.
Proof.
  cbn. unfold failure_record.
  now rewrite orb_true_iff, (includes_lower _ _ small_fail),
    (includes_lower _ _ small_error).
Qed.

Lemma is_after_iff (lastSuccessDate : option JsDate) (row : Row) :
  match lastSuccessDate with
  | None => true
  | Some d => date_gt (date (cleaned Date_parse row)) d
  end = true
  <-> after_success Date_parse lastSuccessDate row.
Proof.
  unfold after_success, date_gt. destruct lastSuccessDate as [d|]; [|tauto].
  cbn. destruct (timestamp Date_parse row) as [t|], (getTime d) as [s|].
  - rewrite Z.ltb_lt. split; [eauto|]. now intros (? & ? & [= <-] & [= <-] & ?).
  - split; [discriminate|]. now intros (? & ? & _ & [=] & _).
  - split; [discriminate|]. now intros (? & ? & [=] & _).
  - split; [discriminate|]. now intros (? & ? & [=] & _).
Qed.

(** The counting loop counts the failure entries that are after the last
    success. *)
Lemma forEach_count lastSuccessDate (rows : list Row) : forall n,
  exists m,
    forEach (count_row lastSuccessDate) (map (cleaned Date_parse) rows) n
    = Ok (n + m)%nat /\
    counted (fun row => failure_record row /\
                        after_success Date_parse lastSuccessDate row) rows m.
Proof.
  induction rows as [|row rows IH]; intros n.
  - exists 0%nat. split; [cbn; f_equal; lia | constructor].
  - cbn [map forEach].
    set (rest := forEach (count_row lastSuccessDate) (map (cleaned Date_parse) rows)) in *.
    unfold count_row, mbind, Result_bind.
    pose proof (is_failure_iff row) as Hf. cbv zeta in Hf.
    pose proof (is_after_iff lastSuccessDate row) as Ha.
    destruct (includes _ "fail" || includes _ "error"); cbv beta iota.
    + destruct (match lastSuccessDate with None => true | Some d => _ end);
        cbv beta iota.
      * destruct (IH (S n)) as (m & -> & Hm). exists (S m).
        split; [f_equal; lia|]. apply counted_hit; [|exact Hm].
        split; [now apply Hf | now apply Ha].
      * destruct (IH n) as (m & -> & Hm). exists m. split; [reflexivity|].
        apply counted_skip; [|exact Hm]. intros [_ H%Ha]. discriminate.
    + destruct (IH n) as (m & -> & Hm). exists m. split; [reflexivity|].
      apply counted_skip; [|exact Hm]. intros [H%Hf _]. discriminate.
Qed.
Lemma small_successfully : small_letters "successfully".
Proof. reflexivity. Qed.

Lemma small_succeeded : small_letters "succeeded".
Proof. reflexivity. Qed.

Lemma is_success_iff (row : Row) :
  is_success (cleaned Date_parse row) = true <-> success_record row.
Proof.
  unfold is_success, success_record. cbn.
  now rewrite orb_true_iff, (includes_lower _ _ small_successfully),
    (includes_lower _ _ small_succeeded).
Qed.

(** The verdict of [analyzeBackups] on a non-empty array: [cleanData] is a
    rearrangement [sorted] of the records, and the failure count is taken
    over all of them. *)
Lemma analyzeBackups_run (row : Row) (rows : list Row) :
  exists (sorted : list Row) (m : nat),
    Permutation (row :: rows) sorted /\
    Array_sort by_date_desc (map (cleaned Date_parse) (row :: rows))
    = map (cleaned Date_parse) sorted /\
    let lastSuccessDate :=
      date <$> List.find is_success (map (cleaned Date_parse) sorted) in
    let latestLogDate := date <$> head (map (cleaned Date_parse) sorted) in
    let hoursGap :=
      hours_of_ms (date_sub (default now latestLogDate)
                            (default {| getTime := Some 0 |} lastSuccessDate)) in
    counted (fun r => failure_record r /\
                      after_success Date_parse lastSuccessDate r)
            (row :: rows) m /\
    analyzeBackups Date_parse now (Some (row :: rows))
    = Ok {| status := if num_gt hoursGap 24 then Status.FAIL else Status.PASS;
            gap := hoursGap;
            lastSuccess := lastSuccessDate;
            latestLog := latestLogDate;
            failCount := m |}.
Proof.
  pose proof (Array_sort_perm by_date_desc (map (cleaned Date_parse) (row :: rows)))
    as Hperm.
  apply Permutation_map_inv in Hperm as (sorted & Hsorted & Hp).
  destruct (forEach_count
              (date <$> List.find is_success (map (cleaned Date_parse) sorted))
              sorted 0%nat) as (m & Hrun & Hm).
  exists sorted, m. split; [exact Hp|]. split; [exact Hsorted|].
  cbv zeta. split.
  - apply (counted_perm _ sorted); [now symmetry | exact Hm].
  - unfold analyzeBackups. rewrite Array_map_clean.
    unfold mbind, Result_bind. rewrite Hsorted.
    assert (match List.find is_success (map (cleaned Date_parse) sorted) with
            | Some r => Some (date r)
            | None => None
            end = date <$> List.find is_success (map (cleaned Date_parse) sorted))
      as -> by now destruct (List.find _ _).
    rewrite Hrun.
    assert (match map (cleaned Date_parse) sorted with
            | [] => None
            | first :: _ => Some (date first)
            end = date <$> head (map (cleaned Date_parse) sorted))
      as -> by now destruct (map _ sorted).
    reflexivity.
Qed.
End BackupFacts.

(** C5. For every sequence of backup records [analyzeBackups] returns a
    verdict; on a non-empty sequence its status is [FAIL] if the hours
    since the last success exceed 24 and [PASS] otherwise, and on an empty
    or absent input the status is [UNKNOWN].  The hours are those between
    the latest log date and the last success, the epoch standing in when
    there was no success. *)
Theorem backup_status_threshold (Date_parse : string -> option Z) (now : JsDate)
    (data : Data) :
  exists v, analyzeBackups Date_parse now data = Ok v /\
    status v = match records data with
               | [] => Status.UNKNOWN
               | _ => if num_gt (gap v) 24 then Status.FAIL else Status.PASS
               end /\
    gap v = match records data with
            | [] => Fin 0
            | _ => hours_of_ms
                     (date_sub (default now (latestLog v))
                               (default {| getTime := Some 0 |} (lastSuccess v)))
            end.
Proof.
  destruct data as [[|row rows]|]; try (eexists; repeat split; reflexivity).
  destruct (analyzeBackups_run Date_parse now row rows)
    as (sorted & m & _ & _ & _ & ->).
  eexists. split; [reflexivity|]. split; reflexivity.
Qed.

(** C10. For every non-empty sequence of backup records [analyzeBackups]
    returns a verdict, and when its hours gap is not a number the status
    is [PASS]. *)
Theorem nan_gap_passes (Date_parse : string -> option Z) (now : JsDate)
    (rows : list Row) :
  rows <> [] ->
  exists v, analyzeBackups Date_parse now (Some rows) = Ok v /\
            (gap v = NaN -> status v = Status.PASS).
Proof.
  intros Hne. destruct rows as [|row rows]; [contradiction|].
  destruct (analyzeBackups_run Date_parse now row rows)
    as (sorted & m & _ & _ & _ & ->).
  eexists. split; [reflexivity|]. cbn [gap status]. now intros ->.
Qed.

(** C10 at a single record with an empty [TimeCreated]. *)
Lemma nan_gap_passes_witness :
  [backup_row_undated] <> [] /\
  exists v, analyzeBackups Date_parse_iso sample_now (Some [backup_row_undated]) = Ok v /\
            gap v = NaN /\ status v = Status.PASS.
Proof.
  assert ([backup_row_undated] <> []) as Hne by discriminate.
  split; [exact Hne|].
  destruct (nan_gap_passes Date_parse_iso sample_now [backup_row_undated] Hne)
    as (v & Hv & Hpass).
  exists v. split; [exact Hv|].
  assert (gap v = NaN) as Hgap.
  { vm_compute in Hv. injection Hv as <-. reflexivity. }
  split; [exact Hgap | exact (Hpass Hgap)].
Defined.

Lemma find_none_all {A} (f : A -> bool) l :
  (forall x, In x l -> f x = false) -> List.find f l = None.
Proof.
  induction l as [|a l IH]; intros H; cbn; [reflexivity|].
  rewrite (H a) by now left. apply IH. intros x Hx. apply H. now right.
Qed.

(** C6 (amended). For every sequence of backup records [analyzeBackups]
    returns a verdict whose failure count is the number of records, among
    all the records supplied, whose [Message] contains "fail" or "error"
    case-insensitively and whose timestamp is strictly after the last
    success by comparison of parsed time values, or the number of all such
    records when no success record was found.  A record with an
    unparseable timestamp is after nothing, and nothing is after an
    unparseable last success.  The last success, when there is one, is the
    timestamp of a record whose [Message] contains "successfully" or
    "succeeded"; there is none exactly when no record is such. *)
Theorem failure_count_since_success (Date_parse : string -> option Z)
    (now : JsDate) (data : Data) :
  exists v, analyzeBackups Date_parse now data = Ok v /\
    counted (fun r => failure_record r /\
                      after_success Date_parse (lastSuccess v) r)
            (records data) (failCount v) /\
    (lastSuccess v = None <->
     forall row, In row (records data) -> ~ success_record row) /\
    (forall d, lastSuccess v = Some d ->
       exists row, In row (records data) /\ success_record row /\
                   getTime d = timestamp Date_parse row).
Proof.
  destruct data as [[|row rows]|];
    try (eexists; split; [reflexivity|]; cbn;
         repeat split; try constructor; try tauto; discriminate).
  destruct (analyzeBackups_run Date_parse now row rows)
    as (sorted & m & Hp & _ & Hm & ->).
  eexists. split; [reflexivity|]. cbn [lastSuccess failCount records default].
  split; [exact Hm|].
  destruct (List.find is_success (map (cleaned Date_parse) sorted)) as [c|] eqn:Hfind;
    cbn [fmap option_fmap option_map].
  - apply find_some in Hfind as [Hin Hc].
    apply in_map_iff in Hin as (r & <- & Hr).
    apply (Permutation_in _ (Permutation_sym Hp)) in Hr.
    apply is_success_iff in Hc.
    split.
    + split; [discriminate|]. intros H. now destruct (H r Hr).
    + intros d [= <-]. exists r. repeat split; assumption.
  - split; [|discriminate].
    split; [|reflexivity]. intros _ r Hr Hs.
    apply (Permutation_in _ Hp) in Hr.
    apply (proj2 (is_success_iff Date_parse r)) in Hs.
    pose proof (find_none _ _ Hfind (cleaned Date_parse r)
                  (in_map _ _ _ Hr)) as Hno.
    congruence.
Qed.

(** C6, as stated, fails: with an unparseable timestamp read as the oldest
    instant, a failure dated 2025 comes after a success whose timestamp is
    empty, so one failure is to be counted; the code counts none. *)
Lemma failure_count_oldest_counterexample :
  exists v,
    analyzeBackups Date_parse_iso sample_now
      (Some [backup_row_undated_success; backup_row_failed]) = Ok v /\
    failCount v = 0%nat /\
    counted (fun r => failure_record r /\
                      after_success_oldest Date_parse_iso (lastSuccess v) r)
            [backup_row_undated_success; backup_row_failed] 1.
Proof.
  eexists. split; [vm_compute; reflexivity|]. split; [reflexivity|].
  cbn [lastSuccess].
  apply counted_skip.
  - intros [[H|H] _].
    + apply (includes_lower _ _ small_fail) in H. discriminate.
    + apply (includes_lower _ _ small_error) in H. discriminate.
  - apply counted_hit; [|constructor]. split.
    + left. now apply (includes_lower _ _ small_fail).
    + vm_compute. exact I.
Qed.

(** ** Totality *)

Lemma sql_out_wf (rows : list Row) : Forall wf_finding (flat_map sql_out rows).
Proof.
  induction rows as [|row rows IH]; cbn; [constructor|].
  apply Forall_app. split; [|exact IH].
  destruct (sql_out_spec row) as [[_ ->]|(f & -> & _ & Hwf)];
    [constructor | constructor; [exact Hwf | constructor]].
Qed.

Lemma ad_out_wf (rows : list Row) : Forall wf_finding (flat_map ad_out rows).
Proof.
  induction rows as [|row rows IH]; cbn; [constructor|].
  apply Forall_app. split; [|exact IH].
  destruct (ad_out_spec row) as [[_ ->]|(f & -> & _ & _ & Hwf)];
    [constructor | constructor; [exact Hwf | constructor]].
Qed.

Lemma wf_source_run (out : Row -> list Finding) (rows : list Row) :
  Forall wf_finding (flat_map out rows) ->
  wf_source {| risk := match rows with
                       | [] => UNKNOWN
                       | _ => sev_list_max (map type (flat_map out rows))
                       end;
               findings := flat_map out rows |}.
Proof.
  intros Hwf. split; [exact Hwf|]. cbn [risk findings].
  destruct rows as [|row rows]; [reflexivity|].
  pose proof (sev_list_max_known (map type (flat_map out (row :: rows)))) as Hk.
  destruct (sev_list_max (map type (flat_map out (row :: rows))));
    [contradiction | reflexivity ..].
Qed.

(** C7. Each of the three classifiers, applied to [null], to an empty
    sequence, or to any sequence of records (whatever columns they have or
    lack, whatever text they hold), returns normally, and the verdict it
    returns is well formed. *)
Theorem classifiers_are_total (Date_parse : string -> option Z) (now : JsDate)
    (data : Data) :
  (exists v, analyzeSQL data = Ok v /\ wf_source v) /\
  (exists v, analyzeAD data = Ok v /\ wf_source v) /\
  (exists v, analyzeBackups Date_parse now data = Ok v /\
             wf_backup (length (records data)) v).
Proof.
  split; [|split].
  - eexists. split; [apply analyzeSQL_run|].
    apply wf_source_run, sql_out_wf.
  - eexists. split; [apply analyzeAD_run|].
    apply wf_source_run, ad_out_wf.
  - destruct data as [[|row rows]|];
      try (eexists; split; [reflexivity|]; repeat split).
    destruct (analyzeBackups_run Date_parse now row rows)
      as (sorted & m & Hp & _ & Hm & ->).
    eexists. split; [reflexivity|].
    assert (latest : date <$> head (map (cleaned Date_parse) sorted) <> None).
    { destruct sorted; [|discriminate].
      symmetry in Hp. now apply Permutation_nil_cons in Hp. }
    apply counted_le in Hm. unfold wf_backup. cbn [status latestLog failCount].
    unfold records, default.
    destruct (num_gt _ 24); split; assumption.
Qed.

Lemma analyzeBackups_total (Date_parse : string -> option Z) (now : JsDate)
    (data : Data) :
  exists v, analyzeBackups Date_parse now data = Ok v.
Proof.
  destruct data as [[|row rows]|]; try (eexists; reflexivity).
  destruct (analyzeBackups_run Date_parse now row rows)
    as (sorted & m & _ & _ & _ & ->).
  eexists. reflexivity.
Qed.

(** ** The remediation plan *)

Lemma overallRisk_below_CRITICAL sqlRisk adRisk backupStatus :
  overallRisk sqlRisk adRisk backupStatus <> CRITICAL ->
  adRisk <> CRITICAL /\ backupStatus <> Status.FAIL.
Proof.
  destruct sqlRisk, adRisk, backupStatus; intros H; split;
    first [discriminate | exfalso; apply H; reflexivity].
Qed.

(** An AD verdict below [CRITICAL] has no findings. *)
Lemma analyzeAD_no_findings (data : Data) :
  exists v, analyzeAD data = Ok v /\ (risk v <> CRITICAL -> findings v = []).
Proof.
  eexists. split; [apply analyzeAD_run|]. cbn [risk findings].
  pose proof (ad_out_types (records data)) as Hty.
  destruct (records data) as [|row rows]; [reflexivity|].
  intros Hr. destruct (flat_map ad_out (row :: rows)) as [|f fs]; [reflexivity|].
  exfalso. apply Hr. apply sev_list_max_CRITICAL.
  inversion Hty as [|? ? -> _]. now left.
Qed.

Lemma immediateActions_headings (r : Report) :
  map heading (immediateActions r)
  = pick (bool_decide (status (backup r) = Status.FAIL)) "Emergency Backup Run"
    ++ pick (nonempty (findings (ad r))) "Lock Down Admin Accounts"
    ++ pick (nonempty (findings (sql r))) "Run DBCC CHECKDB & Log Audits"
    ++ pick (bool_decide (overall r <> CRITICAL)) "Schedule Quarterly Review".
Proof.
  unfold immediateActions, when, pick.
  destruct (bool_decide (status (backup r) = Status.FAIL)),
    (findings (ad r)), (findings (sql r)),
    (bool_decide (overall r <> CRITICAL)); reflexivity.
Qed.

Lemma remediationLines_headlines (r : Report) :
  headlines (remediationLines r)
  = numbered
      (pick (bool_decide (status (backup r) = Status.FAIL)) "EMERGENCY BACKUP RUN"
       ++ pick (nonempty (findings (ad r))) "LOCK DOWN ADMIN ACCOUNTS"
       ++ pick (nonempty (findings (sql r))) "DATABASE INTEGRITY CHECKS").
Proof.
  unfold remediationLines, pick.
  destruct (bool_decide (status (backup r) = Status.FAIL)),
    (findings (ad r)), (findings (sql r)); reflexivity.
Qed.


(** C9 (amended). For every three inputs [runAudit] returns a report.  The
    panel lists, in this fixed order, a backup item when the backup status
    is [FAIL], an AD item when there are AD findings, an SQL item when
    there are SQL findings, and the "schedule review" item when the overall
    risk is not [CRITICAL]: the review item comes after the others, it does
    not replace them.  When the overall risk is not [CRITICAL] the backup
    and AD items are absent, so the panel is the SQL item, if there are SQL
    findings, followed by the review item.  The text plan lists the same
    three items in the same order, numbered from 1, and has no review
    item.  The panel of version 1.4.0 holds a single card, chosen by the
    overall risk alone. *)
Theorem remediation_plan_order (Date_parse : string -> option Z) (now : JsDate)
    (sqlData adData backupData : Data) :
  exists r, runAudit Date_parse now sqlData adData backupData = Ok r /\
    map heading (immediateActions r)
    = pick (bool_decide (status (backup r) = Status.FAIL)) "Emergency Backup Run"
      ++ pick (nonempty (findings (ad r))) "Lock Down Admin Accounts"
      ++ pick (nonempty (findings (sql r))) "Run DBCC CHECKDB & Log Audits"
      ++ pick (bool_decide (overall r <> CRITICAL)) "Schedule Quarterly Review" /\
    (overall r <> CRITICAL ->
     map heading (immediateActions r)
     = pick (nonempty (findings (sql r))) "Run DBCC CHECKDB & Log Audits"
       ++ ["Schedule Quarterly Review"]) /\
    headlines (remediationLines r)
    = numbered
        (pick (bool_decide (status (backup r) = Status.FAIL)) "EMERGENCY BACKUP RUN"
         ++ pick (nonempty (findings (ad r))) "LOCK DOWN ADMIN ACCOUNTS"
         ++ pick (nonempty (findings (sql r))) "DATABASE INTEGRITY CHECKS") /\
    map heading (immediateActions_v14 r)
    = [if bool_decide (overall r = CRITICAL)
       then "Critical Remediation Required" else "Routine Maintenance"].
Proof.
  unfold runAudit. rewrite analyzeSQL_run.
  destruct (analyzeAD_no_findings adData) as (av & -> & Had).
  destruct (analyzeBackups_total Date_parse now backupData) as (bv & ->).
  unfold mbind, Result_bind.
  eexists. split; [reflexivity|].
  split; [apply immediateActions_headings|].
  split; [|split; [apply remediationLines_headlines|]].
  2: { unfold immediateActions_v14. cbn [map]. now destruct (bool_decide _). }
  intros Hov. rewrite immediateActions_headings.
  cbn [overall sql ad backup risk findings] in *.
  pose proof (overallRisk_below_CRITICAL _ _ _ Hov) as [Hadr Hst].
  rewrite (Had Hadr).
  rewrite (bool_decide_eq_false_2 _ Hst), (bool_decide_eq_true_2 _ Hov).
  reflexivity.
Qed.

(** C9, as stated, fails: an audit with one medium SQL finding and nothing
    else has an overall risk below [CRITICAL], and its panel holds the SQL
    item followed by the review item, not the review item alone; its text
    plan holds the SQL item and no review item. *)
Lemma plan_fallback_counterexample :
  exists r,
    runAudit Date_parse_iso sample_now (Some [sql_row_shrink]) None None = Ok r /\
    overall r = MEDIUM /\
    map heading (immediateActions r)
    = ["Run DBCC CHECKDB & Log Audits"; "Schedule Quarterly Review"] /\
    headlines (remediationLines r) = ["1. DATABASE INTEGRITY CHECKS"].
Proof. eexists. split; [vm_compute; reflexivity|]. repeat split. Qed.

(** * The CSV reader *)

(** ** Lines and blank lines *)

Lemma split_on_cons sep s : exists piece rest, split_on sep s = piece :: rest.
Proof.
  destruct s as [|c s]; cbn; [eauto|].
  destruct (Ascii.eqb c sep); [eauto|]. destruct (split_on sep s); eauto.
Qed.

(** Splitting distributes over a separator. *)
Lemma split_on_app sep a b :
  split_on sep (a +:+ String sep b) = split_on sep a ++ split_on sep b.
Proof.
  induction a as [|c a IH].
  - change (EmptyString +:+ String sep b) with (String sep b).
    cbn [split_on]. now rewrite Ascii.eqb_refl.
  - change ((String c a) +:+ String sep b) with (String c (a +:+ String sep b)).
    cbn [split_on]. rewrite IH.
    destruct (Ascii.eqb c sep); [reflexivity|].
    destruct (split_on_cons sep a) as (p & r & ->). reflexivity.
Qed.

Lemma trim_start_empty s :
  trim_start s = EmptyString <-> forall c, In c (list_ascii_of_string s) -> is_ws c = true.
Proof.
  induction s as [|c s IH]; cbn.
  - split; [intros _ ? [] | reflexivity].
  - destruct (is_ws c) eqn:Hc.
    + rewrite IH. split.
      * intros H x [<-|Hx]; [exact Hc | now apply H].
      * intros H x Hx. apply H. now right.
    + split; [discriminate|]. intros H.
      rewrite (H c) in Hc by now left. discriminate.
Qed.

Lemma trim_end_empty s :
  trim_end s = EmptyString <-> forall c, In c (list_ascii_of_string s) -> is_ws c = true.
Proof.
  induction s as [|c s IH]; cbn.
  - split; [intros _ ? [] | reflexivity].
  - destruct (trim_end s) as [|d t] eqn:Ht.
    + destruct (is_ws c) eqn:Hc.
      * split; [|reflexivity]. intros _ x [<-|Hx]; [exact Hc|].
        now apply (proj1 IH).
      * split; [discriminate|]. intros H.
        rewrite (H c) in Hc by now left. discriminate.
    + split; [discriminate|]. intros H.
      assert (String d t = EmptyString) as Habs; [|discriminate].
      apply IH. intros x Hx. apply H. now right.
Qed.

Lemma trim_start_ws s :
  (forall c, In c (list_ascii_of_string (trim_start s)) -> is_ws c = true) ->
  forall c, In c (list_ascii_of_string s) -> is_ws c = true.
Proof.
  induction s as [|c s IH]; cbn; [tauto|].
  destruct (is_ws c) eqn:Hc.
  - intros H x [<-|Hx]; [exact Hc | now apply IH].
  - intros H x Hx. now apply H.
Qed.

(** A line is blank when it holds white space only. *)
Lemma trim_empty s :
  trim s = EmptyString <-> forall c, In c (list_ascii_of_string s) -> is_ws c = true.
Proof.
  unfold trim. rewrite trim_end_empty. split.
  - apply trim_start_ws.
  - intros H. now rewrite (proj2 (trim_start_empty s) H).
Qed.

Lemma split_on_chars sep s piece c :
  In piece (split_on sep s) -> In c (list_ascii_of_string piece) ->
  In c (list_ascii_of_string s).
Proof.
  revert piece. induction s as [|d s IH]; intros piece; cbn.
  - intros [<-|[]]. tauto.
  - destruct (Ascii.eqb d sep).
    + intros [<-|Hp] Hc; [destruct Hc | right; now apply (IH piece)].
    + destruct (split_on_cons sep s) as (p & r & Hs). rewrite Hs in *.
      intros [<-|Hp] Hc.
      * destruct Hc as [<-|Hc]; [now left | right; apply (IH p); [now left | exact Hc]].
      * right. apply (IH piece); [now right | exact Hc].
Qed.

Section CSVFacts.
Variable match_values : string -> list string.

Lemma csv_lines_app a b :
  csv_lines (a +:+ String "010"%char b) = csv_lines a ++ csv_lines b.
Proof. unfold csv_lines. now rewrite split_on_app, List.filter_app. Qed.

Lemma csv_lines_blank b : trim b = EmptyString -> csv_lines b = [].
Proof.
  intros Hb. unfold csv_lines.
  assert (forall piece, In piece (split_on "010"%char b) -> trim piece = EmptyString) as H.
  { intros piece Hp. apply trim_empty. intros c Hc.
    apply (proj1 (trim_empty b) Hb).
    exact (split_on_chars "010"%char b piece c Hp Hc). }
  induction (split_on "010"%char b) as [|p l IH]; cbn; [reflexivity|].
  rewrite (H p) by now left. cbn. apply IH. intros q Hq. apply H. now right.
Qed.

(** X1. Blank text between two line breaks, and blank text after the last
    line break, leave the result of [parseCSV] unchanged: blank lines give no
    record, wherever they are. *)
Theorem parseCSV_skips_blank_lines (a b c : string) :
  trim b = EmptyString ->
  parseCSV match_values (a +:+ String "010"%char (b +:+ String "010"%char c))
  = parseCSV match_values (a +:+ String "010"%char c) /\
  parseCSV match_values (a +:+ String "010"%char b) = parseCSV match_values a.
Proof.
  intros Hb. unfold parseCSV.
  rewrite !csv_lines_app, (csv_lines_blank b Hb), app_nil_r. split; reflexivity.
Qed.

End CSVFacts.

(** X1 at a header line, a line of a carriage return and two spaces, and one
    data line. *)
Lemma parseCSV_skips_blank_lines_witness :
  trim (String "013"%char "  ") = EmptyString /\
  parseCSV match_cells
    ("Priority,Finding" +:+ String "010"%char
       (String "013"%char "  " +:+ String "010"%char "10,Backups not performed"))
  = parseCSV match_cells
      ("Priority,Finding" +:+ String "010"%char "10,Backups not performed").
Proof.
  split; [reflexivity|].
  apply (parseCSV_skips_blank_lines match_cells "Priority,Finding"
           (String "013"%char "  ") "10,Backups not performed").
  reflexivity.
Defined.

(** ** The cells of a row *)

Lemma set_property_lookup (obj : Row) key value k :
  set_property obj key value !! k
  = if decide (key = k /\ key <> "__proto__") then Some value else obj !! k.
Proof.
  unfold set_property. destruct (String.eqb_spec key "__proto__") as [->|Hne].
  - destruct (decide _) as [[_ H]|_]; [contradiction | reflexivity].
  - rewrite lookup_insert. destruct (decide (key = k)) as [->|Hk].
    + now rewrite decide_True.
    + rewrite decide_False; [reflexivity | tauto].
Qed.

Lemma assign_cells_notin hs : forall (obj : Row) idx fv k,
  ~ In k hs -> assign_cells obj idx hs fv !! k = obj !! k.
Proof.
  induction hs as [|h hs IH]; intros obj idx fv k Hk; cbn; [reflexivity|].
  rewrite IH by (intros H; apply Hk; now right).
  rewrite set_property_lookup, decide_False; [reflexivity|].
  intros [-> _]. apply Hk. now left.
Qed.

Lemma assign_cells_is_Some hs : forall (obj : Row) idx fv k,
  is_Some (assign_cells obj idx hs fv !! k) <->
  is_Some (obj !! k) \/ (In k hs /\ k <> "__proto__").
Proof.
  induction hs as [|h hs IH]; intros obj idx fv k; cbn; [tauto|].
  rewrite IH, set_property_lookup.
  destruct (decide (h = k /\ h <> "__proto__")) as [[-> Hp]|Hn].
  - split; [intros _; right; tauto | intros _; left; eauto].
  - split.
    + intros [H|[H1 H2]]; [now left | right; tauto].
    + intros [H|[[->|H1] H2]]; [now left | tauto | right; tauto].
Qed.

Lemma assign_cells_lookup hs : forall (obj : Row) idx fv i h,
  NoDup hs -> hs !! i = Some h -> h <> "__proto__" ->
  assign_cells obj idx hs fv !! h = Some (default EmptyString (fv !! (idx + i)%nat)).
Proof.
  induction hs as [|h0 hs IH]; intros obj idx fv i h Hnd Hi Hp; [discriminate|].
  apply NoDup_cons in Hnd as [Hnotin Hnd]. destruct i as [|i]; cbn in Hi.
  - injection Hi as ->. cbn.
    rewrite assign_cells_notin by (now rewrite <- list_elem_of_In).
    rewrite set_property_lookup, decide_True by tauto.
    now rewrite Nat.add_0_r.
  - cbn. rewrite (IH _ (S idx) fv i h Hnd Hi Hp). do 3 f_equal. lia.
Qed.

Section CSVRows.
Variable match_values : string -> list string.

(** X2. Every row returned by [parseCSV] has a value under each header name
    and under nothing else: a cell that is missing reads as a string, a cell
    beyond the headers is dropped.  The one header that gives no key is
    [__proto__]. *)
Theorem parseCSV_rows_have_header_keys (text : string) (row : Row) (key : string) :
  In row (data (parseCSV match_values text)) ->
  is_Some (row !! key) <->
  In key (headers (parseCSV match_values text)) /\ key <> "__proto__".
Proof.
  unfold parseCSV. destruct (csv_lines text) as [|first rest]; cbn [data headers].
  - intros [].
  - intros (line & <- & _)%in_map_iff. unfold csv_row.
    rewrite assign_cells_is_Some, lookup_empty. split.
    + intros [[? [=]]|H]; exact H.
    + intros H. now right.
Qed.

(** X3. On a data line that has as many comma-separated cells as there are
    headers, the value under the header at position [i] is the cell at
    position [i], trimmed and with its enclosing quotes removed (headers
    being distinct). *)
Theorem csv_row_cell (hs : list string) (line : string) (i : nat) (h cell : string) :
  NoDup hs ->
  length (split_on "," line) = length hs ->
  hs !! i = Some h -> h <> "__proto__" ->
  split_on "," line !! i = Some cell ->
  csv_row match_values hs line !! h = Some (unquote (trim cell)).
Proof.
  intros Hnd Hlen Hi Hp Hcell. unfold csv_row.
  rewrite length_map, Hlen, Nat.eqb_refl.
  rewrite (assign_cells_lookup hs _ 0 _ i h Hnd Hi Hp). cbn [Nat.add].
  now rewrite list_lookup_fmap, Hcell.
Qed.

(** X4. On a data line whose number of comma-separated cells differs from
    the number of headers, the value under the header at position [i] is
    the match of the cell pattern at position [i] with its enclosing quotes
    removed, and the empty string when the line has no such match. *)
Theorem csv_row_ragged (hs : list string) (line : string) (i : nat) (h : string) :
  NoDup hs ->
  length (split_on "," line) <> length hs ->
  hs !! i = Some h -> h <> "__proto__" ->
  csv_row match_values hs line !! h
  = Some (default EmptyString (unquote <$> match_values line !! i)).
Proof.
  intros Hnd Hlen Hi Hp. unfold csv_row.
  rewrite length_map. apply Nat.eqb_neq in Hlen. rewrite Hlen.
  rewrite (assign_cells_lookup hs _ 0 _ i h Hnd Hi Hp). cbn [Nat.add].
  now rewrite list_lookup_fmap.
Qed.
End CSVRows.

Lemma parseCSV_rows_have_header_keys_witness :
  In (mkRow [("A", "1"); ("B", "")])
     (data (parseCSV match_cells ("A,B" +:+ String "010"%char "1"))) /\
  (is_Some (mkRow [("A", "1"); ("B", "")] !! "B") <->
   In "B" (headers (parseCSV match_cells ("A,B" +:+ String "010"%char "1"))) /\
   "B" <> "__proto__").
Proof.
  assert (In (mkRow [("A", "1"); ("B", "")])
             (data (parseCSV match_cells ("A,B" +:+ String "010"%char "1")))) as Hin
    by (left; reflexivity).
  split; [exact Hin|].
  exact (parseCSV_rows_have_header_keys match_cells _ _ "B" Hin).
Defined.

Lemma csv_row_cell_witness :
  NoDup ["Priority"; "Finding"] /\
  length (split_on "," "10, Backups not performed ") = length ["Priority"; "Finding"] /\
  csv_row match_cells ["Priority"; "Finding"] "10, Backups not performed " !! "Finding"
  = Some "Backups not performed".
Proof.
  assert (NoDup ["Priority"; "Finding"]) as Hnd.
  { repeat (apply NoDup_cons_2; [rewrite list_elem_of_In; cbn; intuition discriminate|]).
    apply NoDup_nil_2. }
  split; [exact Hnd|]. split; [reflexivity|].
  apply (csv_row_cell match_cells ["Priority"; "Finding"]
           "10, Backups not performed " 1 "Finding" " Backups not performed " Hnd);
    first [reflexivity | discriminate].
Defined.

Lemma csv_row_ragged_witness :
  NoDup ["Priority"; "Finding"; "Details"] /\
  length (split_on "," "10,Backups") <> length ["Priority"; "Finding"; "Details"] /\
  csv_row match_cells ["Priority"; "Finding"; "Details"] "10,Backups" !! "Details"
  = Some EmptyString.
Proof.
  assert (NoDup ["Priority"; "Finding"; "Details"]) as Hnd.
  { repeat (apply NoDup_cons_2; [rewrite list_elem_of_In; cbn; intuition discriminate|]).
    apply NoDup_nil_2. }
  split; [exact Hnd|]. split; [discriminate|].
  apply (csv_row_ragged match_cells ["Priority"; "Finding"; "Details"]
           "10,Backups" 2 "Details" Hnd);
    first [reflexivity | discriminate].
Defined.

(** * The file validation *)

Lemma validateFile_valid (type : Slot) (parsed : option Parsed) :
  valid (validateFile type parsed) = true ->
  exists p, parsed = Some p /\ data p <> [] /\
            detectType (map lower (headers p)) = Some type /\
            error (validateFile type parsed) = None.
Proof.
  unfold validateFile. destruct parsed as [p|]; [|discriminate].
  destruct (data p) as [|row rows] eqn:Hd; [discriminate|]. cbn [length Nat.eqb].
  destruct (detectType (map lower (headers p))) as [detected|] eqn:Hdet;
    [|discriminate].
  destruct (bool_decide_reflect (detected <> type)) as [Hne|Heq]; [discriminate|].
  intros _. exists p.
  assert (detected = type) as -> by (destruct (decide (detected = type)); tauto).
  split; [reflexivity|]. split; [now rewrite Hd|]. split; [exact Hdet|].
  reflexivity.
Qed.

(** X5. [validateFile] accepts a file in one slot at most, and only a file
    that has at least one data row; an accepted file carries no error
    message. *)
Theorem validateFile_at_most_one_slot (parsed : option Parsed) (t1 t2 : Slot) :
  valid (validateFile t1 parsed) = true ->
  valid (validateFile t2 parsed) = true ->
  t1 = t2 /\ error (validateFile t1 parsed) = None /\
  exists p, parsed = Some p /\ data p <> [].
Proof.
  intros (p1 & -> & Hd & H1 & He)%validateFile_valid
         (p2 & [= <-] & _ & H2 & _)%validateFile_valid.
  split; [congruence|]. split; [exact He|]. eauto.
Qed.

Lemma validateFile_at_most_one_slot_witness :
  let parsed :=
    Some (parseCSV match_cells ("Priority,Finding" +:+ String "010"%char "10,Disk")) in
  valid (validateFile slot_sql parsed) = true /\
  slot_sql = slot_sql /\ error (validateFile slot_sql parsed) = None /\
  exists p, parsed = Some p /\ data p <> [].
Proof.
  intros parsed.
  assert (valid (validateFile slot_sql parsed) = true) as Hv by reflexivity.
  split; [exact Hv|].
  exact (validateFile_at_most_one_slot parsed slot_sql slot_sql Hv Hv).
Defined.

(** ** Validated files and the column names the classifiers read *)

Lemma csv_row_lookup_None match_values hs line key :
  ~ In key hs -> csv_row match_values hs line !! key = None.
Proof.
  intros Hk. unfold csv_row. rewrite assign_cells_notin by exact Hk.
  apply lookup_empty.
Qed.

Lemma parseCSV_lookup_None match_values text key row :
  ~ In key (headers (parseCSV match_values text)) ->
  In row (data (parseCSV match_values text)) -> row !! key = None.
Proof.
  unfold parseCSV. destruct (csv_lines text) as [|first rest]; cbn [data headers].
  - intros _ [].
  - intros Hk (line & <- & _)%in_map_iff. now apply csv_row_lookup_None.
Qed.

Lemma get_None (row : Row) key : row !! key = None -> get row key = VUndefined.
Proof. unfold get. now intros ->. Qed.

Lemma field_None (row : Row) key : row !! key = None -> field row key = EmptyString.
Proof. unfold field. now intros ->. Qed.

Lemma sql_out_without_Priority (row : Row) :
  row !! "Priority" = None -> sql_out row = [].
Proof.
  intros H. unfold sql_out, sql_row. rewrite toLowerCase_field.
  rewrite (get_None _ _ H). reflexivity.
Qed.

Lemma ad_out_without_GroupName (row : Row) :
  row !! "GroupName" = None -> ad_out row = [].
Proof.
  intros H. unfold ad_out, ad_row. rewrite !toLowerCase_field.
  rewrite (field_None _ _ H). reflexivity.
Qed.

Lemma flat_map_nil {A B} (f : A -> list B) l :
  (forall a, In a l -> f a = []) -> flat_map f l = [].
Proof.
  induction l as [|a l IH]; intros H; cbn; [reflexivity|].
  rewrite (H a) by now left. apply IH. intros b Hb. apply H. now right.
Qed.

(** X6. The validation compares header names in lower case, the SQL
    classifier reads the column [Priority] as spelled: for a file accepted
    in the SQL slot that has no header spelled [Priority], [analyzeSQL]
    reports [LOW] with no findings, whatever the cells hold. *)
Theorem sql_file_without_Priority_header (match_values : string -> list string)
    (text : string) :
  valid (validateFile slot_sql (Some (parseCSV match_values text))) = true ->
  ~ In "Priority" (headers (parseCSV match_values text)) ->
  analyzeSQL (Some (data (parseCSV match_values text)))
  = Ok {| risk := LOW; findings := [] |}.
Proof.
  intros (p & [= <-] & Hd & _)%validateFile_valid Hk.
  rewrite analyzeSQL_run. cbn [records default].
  rewrite flat_map_nil.
  - destruct (data (parseCSV match_values text)); [contradiction | reflexivity].
  - intros row Hrow. apply sql_out_without_Priority.
    now apply (parseCSV_lookup_None match_values text).
Qed.

Lemma sql_file_without_Priority_header_witness :
  let text := "priority,finding" +:+ String "010"%char "1,Backups not performed" in
  valid (validateFile slot_sql (Some (parseCSV match_cells text))) = true /\
  ~ In "Priority" (headers (parseCSV match_cells text)) /\
  analyzeSQL (Some (data (parseCSV match_cells text)))
  = Ok {| risk := LOW; findings := [] |}.
Proof.
  intros text.
  assert (valid (validateFile slot_sql (Some (parseCSV match_cells text))) = true)
    as Hv by reflexivity.
  assert (~ In "Priority" (headers (parseCSV match_cells text))) as Hk
    by (vm_compute; intuition discriminate).
  split; [exact Hv|]. split; [exact Hk|].
  exact (sql_file_without_Priority_header match_cells text Hv Hk).
Defined.

(** X7. In the same way, for a file accepted in the AD slot that has no
    header spelled [GroupName], [analyzeAD] reports [LOW] with no
    findings. *)
Theorem ad_file_without_GroupName_header (match_values : string -> list string)
    (text : string) :
  valid (validateFile slot_ad (Some (parseCSV match_values text))) = true ->
  ~ In "GroupName" (headers (parseCSV match_values text)) ->
  analyzeAD (Some (data (parseCSV match_values text)))
  = Ok {| risk := LOW; findings := [] |}.
Proof.
  intros (p & [= <-] & Hd & _)%validateFile_valid Hk.
  rewrite analyzeAD_run. cbn [records default].
  rewrite flat_map_nil.
  - destruct (data (parseCSV match_values text)); [contradiction | reflexivity].
  - intros row Hrow. apply ad_out_without_GroupName.
    now apply (parseCSV_lookup_None match_values text).
Qed.

Lemma ad_file_without_GroupName_header_witness :
  let text := "groupname,samaccountname,name" +:+ String "010"%char
              "Domain Admins,svc_backup,Backup Service" in
  valid (validateFile slot_ad (Some (parseCSV match_cells text))) = true /\
  ~ In "GroupName" (headers (parseCSV match_cells text)) /\
  analyzeAD (Some (data (parseCSV match_cells text)))
  = Ok {| risk := LOW; findings := [] |}.
Proof.
  intros text.
  assert (valid (validateFile slot_ad (Some (parseCSV match_cells text))) = true)
    as Hv by reflexivity.
  assert (~ In "GroupName" (headers (parseCSV match_cells text))) as Hk
    by (vm_compute; intuition discriminate).
  split; [exact Hv|]. split; [exact Hk|].
  exact (ad_file_without_GroupName_header match_cells text Hv Hk).
Defined.

(** * More on the SQL classifier *)

Lemma get_or_default (row : Row) key d :
  ToString (get row key ||| VStr d)
  = if String.eqb (field row key) EmptyString then d else field row key.
Proof.
  unfold get, field, js_or. destruct (row !! key) as [s|]; cbn; [|reflexivity].
  now destruct (String.eqb s EmptyString).
Qed.

Lemma get_or_empty_text (row : Row) key :
  ToString (get row key ||| VStr EmptyString) = field row key.
Proof. now rewrite get_or_empty. Qed.

(** The finding a row adds, with its title and description. *)
Lemma sql_out_finding (row : Row) :
  (~ actionable row /\ sql_out row = []) \/
  (exists f, sql_out row = [f] /\ sql_finding_of row f).
Proof.
  pose proof (get_or_default row "DatabaseName" "Unknown") as Hdb.
  pose proof (get_or_empty_text row "Details") as Hdet.
  pose proof (get_or_empty row "Details") as Hdet'.
  fold (database_name row) in Hdb.
  unfold sql_out, sql_row. rewrite toLowerCase_field.
  unfold mbind, Result_bind.
  destruct (num_le _ 50) eqn:Hact.
  - apply actionable_iff in Hact. right.
    destruct (includes _ "backups not performed") eqn:H1.
    + eexists. split; [reflexivity|].
      apply sql_finding_backups; cbn [type title desc app];
        [|reflexivity|now rewrite Hdb|now rewrite Hdb, Hdet].
      constructor; [assumption|].
      now apply (includes_lower _ _ small_backups_not_performed).
    + apply (includes_lower_false _ _ small_backups_not_performed) in H1.
      destruct (includes _ "corruption check") eqn:H2.
      * eexists. split; [reflexivity|].
        apply sql_finding_corruption; cbn [type title desc app];
          [|reflexivity|now rewrite Hdb|now rewrite Hdb].
        constructor; try assumption.
        now apply (includes_lower _ _ small_corruption_check).
      * apply (includes_lower_false _ _ small_corruption_check) in H2.
        eexists. split; [reflexivity|].
        apply sql_finding_config; cbn [type title desc app];
          [|reflexivity|reflexivity|exact Hdet'].
        now constructor.
  - left. split; [|reflexivity].
    intros H%actionable_iff. congruence.
Qed.

Lemma sql_out_emitted (rows : list Row) :
  emitted actionable sql_finding_of rows (flat_map sql_out rows).
Proof.
  induction rows as [|row rows IH]; cbn; [constructor|].
  destruct (sql_out_finding row) as [[Hn ->]|(f & -> & Hf)]; cbn.
  - now apply emitted_skip.
  - apply emitted_hit; [|exact Hf|exact IH].
    destruct Hf as [H|H|H]; now apply sql_class_actionable in H.
Qed.

(** X8. The findings of [analyzeSQL] are, in input order, one finding per
    actionable record and none for the others (a priority above 50, or none
    that parses).  A record that mentions "backups not performed" gives a
    [CRITICAL] finding "No Backups: db"; otherwise one that mentions
    "corruption check" gives a [HIGH] finding "Corruption Risk: db"; any
    other gives a [MEDIUM] finding "Config Issue: " followed by its finding
    text in small letters; db is the record's [DatabaseName], "Unknown" when
    it has none. *)
Theorem sql_findings_per_actionable_record (data : Data) :
  exists v, analyzeSQL data = Ok v /\
    emitted actionable sql_finding_of (records data) (findings v).
Proof.
  eexists. split; [apply analyzeSQL_run|]. apply sql_out_emitted.
Qed.

Lemma sql_out_class (rows : list Row) s :
  In s (map type (flat_map sql_out rows)) <->
  exists row, In row rows /\ sql_class row s.
Proof.
  rewrite in_map_iff. split.
  - intros (f & Hf & Hin). apply in_flat_map in Hin as (row & Hrow & Hin).
    exists row. split; [assumption|].
    destruct (sql_out_spec row) as [[_ Hout]|(f' & Hout & Hcl & _)];
      rewrite Hout in Hin; cbn in Hin; [tauto|].
    destruct Hin as [->|[]]. now rewrite <- Hf.
  - intros (row & Hrow & Hcl).
    destruct (sql_out_spec row) as [[Hna _]|(f & Hout & Hcl' & _)].
    + now apply sql_class_actionable in Hcl.
    + exists f. split; [exact (sql_class_fun _ _ _ Hcl' Hcl)|].
      apply in_flat_map. exists row. split; [assumption|].
      rewrite Hout. now left.
Qed.

Lemma sev_max_HIGH a b :
  sev_max a b = HIGH <->
  (a = HIGH \/ b = HIGH) /\ a <> CRITICAL /\ b <> CRITICAL.
Proof. destruct a, b; cbn; intuition discriminate. Qed.

Lemma sev_max_MEDIUM a b :
  sev_max a b = MEDIUM <->
  (a = MEDIUM \/ b = MEDIUM) /\ a <> HIGH /\ b <> HIGH /\
  a <> CRITICAL /\ b <> CRITICAL.
Proof. destruct a, b; cbn; intuition discriminate. Qed.

Lemma sev_list_max_HIGH l :
  sev_list_max l = HIGH <-> In HIGH l /\ ~ In CRITICAL l.
Proof.
  induction l as [|a l IH].
  - cbn. split; [discriminate | tauto].
  - change (sev_list_max (a :: l)) with (sev_max a (sev_list_max l)).
    pose proof (sev_list_max_CRITICAL l) as Hc.
    rewrite sev_max_HIGH. unfold not in *. rewrite Hc, IH. cbn [In].
    destruct a; intuition congruence.
Qed.

Lemma sev_list_max_MEDIUM l :
  sev_list_max l = MEDIUM <-> In MEDIUM l /\ ~ In HIGH l /\ ~ In CRITICAL l.
Proof.
  induction l as [|a l IH].
  - cbn. split; [discriminate | tauto].
  - change (sev_list_max (a :: l)) with (sev_max a (sev_list_max l)).
    pose proof (sev_list_max_CRITICAL l) as Hc.
    pose proof (sev_list_max_HIGH l) as Hh.
    rewrite sev_max_MEDIUM. unfold not in *. rewrite Hc, Hh, IH. cbn [In].
    destruct a; intuition congruence.
Qed.

Lemma sql_out_nil (rows : list Row) :
  flat_map sql_out rows = [] <-> forall row, In row rows -> ~ actionable row.
Proof.
  induction rows as [|row rows IH]; cbn; [tauto|].
  destruct (sql_out_spec row) as [[Hn ->]|(f & -> & Hcl & _)]; cbn.
  - rewrite IH. split.
    + intros H r [<-|Hr]; [exact Hn | now apply H].
    + intros H r Hr. apply H. now right.
  - split; [discriminate|]. intros H. apply sql_class_actionable in Hcl.
    now destruct (H row (or_introl eq_refl)).
Qed.

Lemma sev_list_max_LOW l :
  Forall (fun s => In s [MEDIUM; HIGH; CRITICAL]) l ->
  sev_list_max l = LOW <-> l = [].
Proof.
  intros Hl. destruct l as [|a l]; [tauto|].
  apply Forall_cons_iff in Hl as [Ha _].
  change (sev_list_max (a :: l)) with (sev_max a (sev_list_max l)).
  split; [|discriminate]. cbn in Ha.
  destruct a, (sev_list_max l); cbn; intros H; try discriminate;
    intuition discriminate.
Qed.

Lemma finding_types_wf (fs : list Finding) :
  Forall wf_finding fs ->
  Forall (fun s => In s [MEDIUM; HIGH; CRITICAL]) (map type fs).
Proof.
  induction 1 as [|f fs [Hty _] _ IH]; cbn; constructor; assumption.
Qed.

(** X9. The risk of [analyzeSQL] is the highest severity the rules give to
    a record: [HIGH] exactly when some record is a corruption-check record
    and none is a no-backups record, [MEDIUM] exactly when some record is an
    other actionable record and none is of the two kinds above, [LOW]
    exactly when there are records and none is actionable, [UNKNOWN]
    exactly when there is no record. *)
Theorem sql_risk_is_highest_class (data : Data) :
  exists v, analyzeSQL data = Ok v /\
    (risk v = HIGH <->
     (exists row, In row (records data) /\ sql_class row HIGH) /\
     ~ (exists row, In row (records data) /\ sql_class row CRITICAL)) /\
    (risk v = MEDIUM <->
     (exists row, In row (records data) /\ sql_class row MEDIUM) /\
     ~ (exists row, In row (records data) /\ sql_class row HIGH) /\
     ~ (exists row, In row (records data) /\ sql_class row CRITICAL)) /\
    (risk v = LOW <->
     records data <> [] /\ forall row, In row (records data) -> ~ actionable row) /\
    (risk v = UNKNOWN <-> records data = []).
Proof.
  eexists. split; [apply analyzeSQL_run|]. cbn [risk].
  rewrite <- !sql_out_class, <- sev_list_max_HIGH, <- sev_list_max_MEDIUM.
  rewrite <- sql_out_nil.
  pose proof (sev_list_max_known (map type (flat_map sql_out (records data)))) as Hk.
  pose proof (sev_list_max_LOW _ (finding_types_wf _ (sql_out_wf (records data))))
    as Hlow.
  destruct (records data) as [|row rows] eqn:Hrows.
  - cbn. repeat split; try discriminate; try tauto; intros [H _]; discriminate.
  - split; [tauto|]. split; [tauto|]. split.
    + rewrite Hlow. split.
      * intros H%map_eq_nil. split; [discriminate | exact H].
      * intros [_ ->]. reflexivity.
    + split; [contradiction | discriminate].
Qed.

(** * More on the backup classifier *)

Lemma num_gt_hours (z : Z) :
  num_gt (hours_of_ms (Some z)) 24 = (86400000 <? z).
Proof.
  unfold num_gt, hours_of_ms, Qdiv.
  change (/ inject_Z (1000 * 60 * 60))%Q with (1 # 3600000)%Q.
  destruct (Z.ltb_spec 86400000 z) as [H|H].
  - apply negb_true_iff. apply not_true_is_false. intros Hle.
    apply Qle_bool_iff in Hle. unfold Qle in Hle. cbn in Hle. lia.
  - apply negb_false_iff. apply Qle_bool_iff. unfold Qle. cbn. lia.
Qed.

(** X10. [analyzeBackups] never uses the clock: the verdict is the same
    whatever [new Date()] returns. *)
Theorem analyzeBackups_ignores_clock (Date_parse : string -> option Z)
    (now now' : JsDate) (data : Data) :
  analyzeBackups Date_parse now data = analyzeBackups Date_parse now' data.
Proof.
  destruct data as [[|row rows]|]; try reflexivity.
  unfold analyzeBackups. rewrite Array_map_clean. unfold mbind, Result_bind.
  destruct (Array_sort by_date_desc (map (cleaned Date_parse) (row :: rows)))
    as [|c l] eqn:Hs.
  - apply Array_sort_nil in Hs. discriminate.
  - reflexivity.
Qed.

(** X11. The status is [FAIL] exactly when the latest log date and the
    last success (the epoch when there is none) both are valid dates and lie
    more than 86 400 000 milliseconds apart. *)
Theorem backup_fails_after_24_hours (Date_parse : string -> option Z)
    (now : JsDate) (data : Data) :
  exists v, analyzeBackups Date_parse now data = Ok v /\
    (status v = Status.FAIL <->
     exists latest t s,
       latestLog v = Some latest /\ getTime latest = Some t /\
       getTime (default {| getTime := Some 0 |} (lastSuccess v)) = Some s /\
       86400000 < t - s).
Proof.
  destruct data as [[|row rows]|];
    try (eexists; split; [reflexivity|]; cbn;
         split; [discriminate | now intros (? & ? & ? & [=] & _)]).
  destruct (analyzeBackups_run Date_parse now row rows)
    as (sorted & m & Hp & _ & _ & ->).
  eexists. split; [reflexivity|]. cbn [status latestLog lastSuccess].
  destruct sorted as [|r0 sorted]; [symmetry in Hp; now apply Permutation_nil_cons in Hp|].
  cbn [map head fmap option_fmap option_map].
  change (default now (Some (date (cleaned Date_parse r0))))
    with (date (cleaned Date_parse r0)).
  set (ls := default {| getTime := Some 0 |}
               (date <$> List.find is_success
                           (cleaned Date_parse r0 :: map (cleaned Date_parse) sorted))).
  unfold date_sub.
  destruct (getTime (date (cleaned Date_parse r0))) as [t|] eqn:Ht;
    [destruct (getTime ls) as [s|] eqn:Hs|].
  - rewrite num_gt_hours. destruct (Z.ltb_spec 86400000 (t - s)) as [H|H].
    + split; [|reflexivity]. intros _. exists (date (cleaned Date_parse r0)), t, s.
      repeat split; assumption.
    + split; [discriminate|].
      intros (latest & t' & s' & [= <-] & Ht' & Hs' & Hlt).
      cbn in Ht, Ht'.
      assert (t' = t) as -> by congruence.
      assert (s' = s) as -> by congruence. lia.
  - cbn. split; [discriminate|]. now intros (? & ? & ? & _ & _ & [=] & _).
  - cbn. split; [discriminate|].
    intros (latest & t' & s' & [= <-] & Ht' & _). cbn in Ht, Ht'. congruence.
Qed.

(** ** Records whose timestamps all parse *)

Lemma not_older_trans : Relations_1.Transitive not_older.
Proof.
  intros a b c (x & y & Hx & Hy & Hxy) (y' & z & Hy' & Hz & Hyz).
  exists x, z. repeat split; try assumption.
  assert (y' = y) as -> by congruence. lia.
Qed.

Lemma StronglySorted_middle {A} (R : A -> A -> Prop) l1 x l2 :
  StronglySorted R (l1 ++ x :: l2) -> Forall (R x) l2.
Proof.
  induction l1 as [|a l1 IH]; cbn; intros H; apply StronglySorted_inv in H as [H1 H2].
  - exact H2.
  - now apply IH.
Qed.

Lemma find_first {A} (f : A -> bool) l x :
  List.find f l = Some x ->
  exists l1 l2, l = l1 ++ x :: l2 /\ f x = true /\ forall y, In y l1 -> f y = false.
Proof.
  induction l as [|a l IH]; cbn; [discriminate|].
  destruct (f a) eqn:Ha.
  - intros [= <-]. exists [], l. repeat split; [exact Ha | intros ? []].
  - intros (l1 & l2 & -> & Hx & Hl1)%IH. exists (a :: l1), l2.
    repeat split; [exact Hx|]. intros y [<-|Hy]; [exact Ha | now apply Hl1].
Qed.

Section DatedFacts.
Variable Date_parse : string -> option Z.
Variable now : JsDate.

Lemma cleaned_dated (rows : list Row) :
  all_dated Date_parse rows -> Forall dated (map (cleaned Date_parse) rows).
Proof.
  intros H. induction rows as [|row rows IH]; cbn; constructor.
  - apply H. now left.
  - apply IH. intros r Hr. apply H. now right.
Qed.

Lemma not_older_cleaned (a b : Row) t' :
  not_older (cleaned Date_parse a) (cleaned Date_parse b) ->
  timestamp Date_parse b = Some t' ->
  exists t, timestamp Date_parse a = Some t /\ t' <= t.
Proof.
  intros (x & y & Hx & Hy & Hxy) Hb. cbn in Hx, Hy.
  exists x. split; [exact Hx|]. congruence.
Qed.

(** In an array sorted from newest to oldest, the first entry that
    satisfies a test is the newest of those that satisfy it. *)
Lemma newest_of_find (P : Row -> Prop) (f : CleanRow -> bool) (rows sorted : list Row) :
  (forall row, f (cleaned Date_parse row) = true <-> P row) ->
  all_dated Date_parse rows ->
  Permutation rows sorted ->
  StronglySorted not_older (map (cleaned Date_parse) sorted) ->
  newest_of Date_parse P rows
    (date <$> List.find f (map (cleaned Date_parse) sorted)).
Proof.
  intros Hf Hd Hp Hs.
  destruct (List.find f (map (cleaned Date_parse) sorted)) as [c|] eqn:Hfind; cbn.
  - apply find_first in Hfind as (l1 & l2 & Hl & Hc & Hl1).
    assert (In c (map (cleaned Date_parse) sorted)) as Hin
      by (rewrite Hl; apply in_or_app; right; now left).
    apply in_map_iff in Hin as (r & <- & Hr).
    assert (In r rows) as Hr' by now apply (Permutation_in _ (Permutation_sym Hp)).
    destruct (timestamp Date_parse r) as [t|] eqn:Ht; [|now destruct (Hd r Hr')].
    exists t. split; [exact Ht|]. split.
    + exists r. repeat split; try assumption. now apply Hf.
    + intros row t' Hrow HP Hrt.
      apply (Permutation_in _ Hp) in Hrow.
      assert (In (cleaned Date_parse row) (l1 ++ cleaned Date_parse r :: l2))
        as Hin by (rewrite <- Hl; now apply in_map).
      apply in_app_or in Hin as [Hin|[Heq|Hin]].
      * apply Hl1 in Hin. apply Hf in HP. congruence.
      * assert (timestamp Date_parse row = timestamp Date_parse r)
          by (now injection Heq).
        assert (t' = t) by congruence. lia.
      * rewrite Hl in Hs. apply StronglySorted_middle in Hs.
        rewrite List.Forall_forall in Hs.
        destruct (not_older_cleaned r row t' (Hs _ Hin) Hrt) as (t0 & Ht0 & Hle).
        assert (t0 = t) by congruence. lia.
  - intros row Hrow HP. apply (Permutation_in _ Hp) in Hrow.
    apply Hf in HP.
    pose proof (find_none _ _ Hfind _ (in_map (cleaned Date_parse) _ _ Hrow)).
    congruence.
Qed.

Lemma newest_of_fun (P : Row -> Prop) (rows : list Row) d1 d2 :
  newest_of Date_parse P rows d1 -> newest_of Date_parse P rows d2 -> d1 = d2.
Proof.
  destruct d1 as [[g1]|], d2 as [[g2]|]; cbn.
  - intros (t1 & -> & (r1 & Hr1 & HP1 & Ht1) & Hmax1)
           (t2 & -> & (r2 & Hr2 & HP2 & Ht2) & Hmax2).
    pose proof (Hmax1 r2 t2 Hr2 HP2 Ht2). pose proof (Hmax2 r1 t1 Hr1 HP1 Ht1).
    do 3 f_equal. lia.
  - intros (t1 & _ & (r1 & Hr1 & HP1 & _) & _) H. now destruct (H r1 Hr1).
  - intros H (t2 & _ & (r2 & Hr2 & HP2 & _) & _). now destruct (H r2 Hr2).
  - reflexivity.
Qed.

Lemma newest_of_perm (P : Row -> Prop) (rows rows' : list Row) d :
  Permutation rows rows' ->
  newest_of Date_parse P rows d -> newest_of Date_parse P rows' d.
Proof.
  intros Hp. destruct d as [d|]; cbn.
  - intros (t & Ht & (r & Hr & HP & Hrt) & Hmax). exists t. split; [exact Ht|]. split.
    + exists r. split; [now apply (Permutation_in _ Hp)|]. now split.
    + intros row t' Hrow. apply Hmax.
      now apply (Permutation_in _ (Permutation_sym Hp)).
  - intros H row Hrow. apply H. now apply (Permutation_in _ (Permutation_sym Hp)).
Qed.

(** The verdict on a non-empty array of dated records. *)
Lemma analyzeBackups_dated (row : Row) (rows : list Row) :
  all_dated Date_parse (row :: rows) ->
  exists latest last m,
    newest_of Date_parse (fun _ => True) (row :: rows) (Some latest) /\
    newest_of Date_parse success_record (row :: rows) last /\
    counted (fun r => failure_record r /\ after_success Date_parse last r)
            (row :: rows) m /\
    analyzeBackups Date_parse now (Some (row :: rows))
    = Ok {| status :=
              if num_gt (hours_of_ms (date_sub latest
                           (default {| getTime := Some 0 |} last))) 24
              then Status.FAIL else Status.PASS;
            gap := hours_of_ms (date_sub latest
                                  (default {| getTime := Some 0 |} last));
            lastSuccess := last;
            latestLog := Some latest;
            failCount := m |}.
Proof.
  intros Hd.
  destruct (analyzeBackups_run Date_parse now row rows)
    as (sorted & m & Hp & Hsorted & Hm & Hrun).
  assert (StronglySorted not_older (map (cleaned Date_parse) sorted)) as Hs.
  { rewrite <- Hsorted. apply (Sorted_StronglySorted not_older_trans).
    apply Array_sort_sorted. now apply cleaned_dated. }
  pose proof (newest_of_find success_record is_success _ _
                (is_success_iff Date_parse) Hd Hp Hs) as Hlast.
  pose proof (newest_of_find (fun _ => True) (fun _ => true) _ _
                (fun _ => conj (fun _ => I) (fun _ => eq_refl)) Hd Hp Hs) as Hlatest.
  destruct sorted as [|r0 sorted];
    [symmetry in Hp; now apply Permutation_nil_cons in Hp|].
  cbn [map List.find fmap option_fmap option_map] in Hlatest.
  exists (date (cleaned Date_parse r0)),
    (date <$> List.find is_success (map (cleaned Date_parse) (r0 :: sorted))), m.
  split; [exact Hlatest|]. split; [exact Hlast|]. split; [exact Hm|].
  exact Hrun.
Qed.
End DatedFacts.

(** X12. When every record has a timestamp that parses, the latest log date
    of the verdict is the newest timestamp of all records, and the last
    success is the newest timestamp among the records whose [Message]
    contains "successfully" or "succeeded" (there is none when no record is
    such). *)
Theorem dated_backups_newest (Date_parse : string -> option Z) (now : JsDate)
    (rows : list Row) :
  rows <> [] ->
  all_dated Date_parse rows ->
  exists v, analyzeBackups Date_parse now (Some rows) = Ok v /\
    latestLog v <> None /\
    newest_of Date_parse (fun _ => True) rows (latestLog v) /\
    newest_of Date_parse success_record rows (lastSuccess v).
Proof.
  intros Hne Hd. destruct rows as [|row rows]; [contradiction|].
  destruct (analyzeBackups_dated Date_parse now row rows Hd)
    as (latest & last & m & H1 & H2 & _ & ->).
  eexists. split; [reflexivity|]. cbn [latestLog lastSuccess].
  split; [discriminate|]. now split.
Qed.

(** X13. When every record has a timestamp that parses, the verdict of
    [analyzeBackups] does not depend on the order of the records. *)
Theorem dated_backups_order_independent (Date_parse : string -> option Z)
    (now : JsDate) (rows rows' : list Row) :
  Permutation rows rows' ->
  all_dated Date_parse rows ->
  analyzeBackups Date_parse now (Some rows)
  = analyzeBackups Date_parse now (Some rows').
Proof.
  intros Hp Hd.
  assert (all_dated Date_parse rows') as Hd'.
  { intros r Hr. apply Hd. now apply (Permutation_in _ (Permutation_sym Hp)). }
  destruct rows as [|row rows], rows' as [|row' rows'].
  - reflexivity.
  - now apply Permutation_nil in Hp.
  - symmetry in Hp. now apply Permutation_nil in Hp.
  - destruct (analyzeBackups_dated Date_parse now row rows Hd)
      as (latest & last & m & H1 & H2 & Hm & ->).
    destruct (analyzeBackups_dated Date_parse now row' rows' Hd')
      as (latest' & last' & m' & H1' & H2' & Hm' & ->).
    apply (newest_of_perm Date_parse _ _ _ _ Hp) in H1, H2.
    pose proof (newest_of_fun Date_parse _ _ _ _ H1 H1') as [= <-].
    pose proof (newest_of_fun Date_parse _ _ _ _ H2 H2') as <-.
    apply (counted_perm _ _ _ Hp) in Hm.
    now rewrite (counted_fun _ _ _ _ Hm Hm').
Qed.

Lemma dated_backups_newest_witness :
  let rows :=
    [backup_row_failed;
     mkRow [("TimeCreated", "2025-01-02T00:00:00Z");
            ("Message", "Backup completed successfully")]] in
  rows <> [] /\ all_dated Date_parse_iso rows /\
  exists v, analyzeBackups Date_parse_iso sample_now (Some rows) = Ok v /\
    latestLog v <> None /\
    newest_of Date_parse_iso (fun _ => True) rows (latestLog v) /\
    newest_of Date_parse_iso success_record rows (lastSuccess v).
Proof.
  intros rows.
  assert (rows <> []) as Hne by discriminate.
  assert (all_dated Date_parse_iso rows) as Hd.
  { intros row [<-|[<-|[]]]; vm_compute; discriminate. }
  split; [exact Hne|]. split; [exact Hd|].
  exact (dated_backups_newest Date_parse_iso sample_now rows Hne Hd).
Defined.

Lemma dated_backups_order_independent_witness :
  let older := backup_row_failed in
  let newer :=
    mkRow [("TimeCreated", "2025-01-02T00:00:00Z");
           ("Message", "Backup completed successfully")] in
  Permutation [older; newer] [newer; older] /\
  all_dated Date_parse_iso [older; newer] /\
  analyzeBackups Date_parse_iso sample_now (Some [older; newer])
  = analyzeBackups Date_parse_iso sample_now (Some [newer; older]).
Proof.
  intros older newer.
  assert (Permutation [older; newer] [newer; older]) as Hp by apply perm_swap.
  assert (all_dated Date_parse_iso [older; newer]) as Hd.
  { intros row [<-|[<-|[]]]; vm_compute; discriminate. }
  split; [exact Hp|]. split; [exact Hd|].
  exact (dated_backups_order_independent Date_parse_iso sample_now _ _ Hp Hd).
Defined.

Lemma counted_none {A} (P : A -> Prop) l n :
  (forall a, In a l -> ~ P a) -> counted P l n -> n = 0%nat.
Proof.
  intros H. induction 1 as [|a l n Ha _ _|a l n _ _ IH].
  - reflexivity.
  - now destruct (H a (or_introl eq_refl)).
  - apply IH. intros b Hb. apply H. now right.
Qed.

Lemma no_message_no_failure (row : Row) :
  row !! "Message" = None -> ~ failure_record row.
Proof.
  intros H%field_None [Hc|Hc]; rewrite H in Hc.
  - apply (includes_lower _ _ small_fail) in Hc. discriminate.
  - apply (includes_lower _ _ small_error) in Hc. discriminate.
Qed.

Lemma no_message_no_success (row : Row) :
  row !! "Message" = None -> ~ success_record row.
Proof.
  intros H%field_None [Hc|Hc]; rewrite H in Hc.
  - apply (includes_lower _ _ small_successfully) in Hc. discriminate.
  - apply (includes_lower _ _ small_succeeded) in Hc. discriminate.
Qed.

(** X14. For a file accepted in the backup slot that has no header spelled
    [Message], [analyzeBackups] finds no success and counts no failure: the
    log reads as one that never succeeded. *)
Theorem backup_file_without_Message_header (match_values : string -> list string)
    (Date_parse : string -> option Z) (now : JsDate) (text : string) :
  valid (validateFile slot_backup (Some (parseCSV match_values text))) = true ->
  ~ In "Message" (headers (parseCSV match_values text)) ->
  exists v,
    analyzeBackups Date_parse now (Some (data (parseCSV match_values text))) = Ok v /\
    lastSuccess v = None /\ failCount v = 0%nat /\ status v <> Status.UNKNOWN.
Proof.
  intros (p & [= <-] & Hd & _)%validateFile_valid Hk.
  pose proof (fun row => parseCSV_lookup_None match_values text "Message" row Hk)
    as Hrows.
  destruct (data (parseCSV match_values text)) as [|row rows]; [contradiction|].
  destruct (analyzeBackups_run Date_parse now row rows)
    as (sorted & m & Hp & _ & Hm & ->).
  eexists. split; [reflexivity|]. cbn [lastSuccess failCount status].
  split; [|split].
  - destruct (List.find is_success (map (cleaned Date_parse) sorted)) as [c|] eqn:Hf;
      [|reflexivity].
    apply find_some in Hf as [(r & <- & Hr)%in_map_iff Hc].
    apply is_success_iff in Hc.
    apply (Permutation_in _ (Permutation_sym Hp)) in Hr.
    now destruct (no_message_no_success r (Hrows r Hr)).
  - apply (counted_none _ _ _ (fun r Hr H =>
             no_message_no_failure r (Hrows r Hr) (proj1 H)) Hm).
  - now destruct (num_gt _ 24).
Qed.

Lemma backup_file_without_Message_header_witness :
  let text := "TimeCreated,message" +:+ String "010"%char
              "2025-01-02T00:00:00Z,Backup completed successfully" in
  valid (validateFile slot_backup (Some (parseCSV match_cells text))) = true /\
  ~ In "Message" (headers (parseCSV match_cells text)) /\
  exists v,
    analyzeBackups Date_parse_iso sample_now
      (Some (data (parseCSV match_cells text))) = Ok v /\
    lastSuccess v = None /\ failCount v = 0%nat /\ status v <> Status.UNKNOWN.
Proof.
  intros text.
  assert (valid (validateFile slot_backup (Some (parseCSV match_cells text))) = true)
    as Hv by reflexivity.
  assert (~ In "Message" (headers (parseCSV match_cells text))) as Hk
    by (vm_compute; intuition discriminate).
  split; [exact Hv|]. split; [exact Hk|].
  exact (backup_file_without_Message_header match_cells Date_parse_iso sample_now
           text Hv Hk).
Defined.

(** * The audit as a whole *)

Lemma overallRisk_CRITICAL sqlRisk adRisk backupStatus :
  overallRisk sqlRisk adRisk backupStatus = CRITICAL <->
  sqlRisk = CRITICAL \/ adRisk = CRITICAL \/ backupStatus = Status.FAIL.
Proof.
  destruct sqlRisk, adRisk, backupStatus; vm_compute; intuition discriminate.
Qed.

Lemma overallRisk_LOW sqlRisk adRisk backupStatus :
  overallRisk sqlRisk adRisk backupStatus = LOW <->
  (sqlRisk = UNKNOWN \/ sqlRisk = LOW) /\ (adRisk = UNKNOWN \/ adRisk = LOW) /\
  backupStatus <> Status.FAIL.
Proof.
  destruct sqlRisk, adRisk, backupStatus; vm_compute; intuition discriminate.
Qed.

(** A verdict has no findings exactly when its risk is [UNKNOWN] or [LOW]. *)
Lemma no_findings_iff (out : Row -> list Finding) (rows : list Row) :
  Forall wf_finding (flat_map out rows) ->
  (match rows with
   | [] => UNKNOWN
   | _ => sev_list_max (map type (flat_map out rows))
   end = UNKNOWN \/
   match rows with
   | [] => UNKNOWN
   | _ => sev_list_max (map type (flat_map out rows))
   end = LOW) <->
  flat_map out rows = [].
Proof.
  intros Hwf. pose proof (sev_list_max_LOW _ (finding_types_wf _ Hwf)) as Hlow.
  pose proof (sev_list_max_known (map type (flat_map out rows))) as Hk.
  destruct rows as [|row rows]; [cbn; tauto|].
  rewrite Hlow. split.
  - intros [H|H]; [contradiction | now apply map_eq_nil in H].
  - intros ->. now right.
Qed.

(** The report of an audit, with what its parts are. *)
Lemma runAudit_run (Date_parse : string -> option Z) (now : JsDate)
    (sqlData adData backupData : Data) :
  exists bv,
    analyzeBackups Date_parse now backupData = Ok bv /\
    runAudit Date_parse now sqlData adData backupData
    = Ok {| sql := {| risk := match records sqlData with
                              | [] => UNKNOWN
                              | _ => sev_list_max
                                       (map type (flat_map sql_out (records sqlData)))
                              end;
                      findings := flat_map sql_out (records sqlData) |};
            ad := {| risk := match records adData with
                             | [] => UNKNOWN
                             | _ => sev_list_max
                                      (map type (flat_map ad_out (records adData)))
                             end;
                     findings := flat_map ad_out (records adData) |};
            backup := bv;
            overall :=
              overallRisk
                (match records sqlData with
                 | [] => UNKNOWN
                 | _ => sev_list_max (map type (flat_map sql_out (records sqlData)))
                 end)
                (match records adData with
                 | [] => UNKNOWN
                 | _ => sev_list_max (map type (flat_map ad_out (records adData)))
                 end)
                (status bv) |}.
Proof.
  unfold runAudit. rewrite analyzeSQL_run, analyzeAD_run.
  destruct (analyzeBackups_total Date_parse now backupData) as (bv & Hbv).
  exists bv. split; [exact Hbv|]. now rewrite Hbv.
Qed.

(** X15. The overall risk of an audit is [CRITICAL] exactly when some SQL
    record is actionable and mentions "backups not performed", or some AD
    record is a red flag, or the backup status is [FAIL]. *)
Theorem audit_critical_iff (Date_parse : string -> option Z) (now : JsDate)
    (sqlData adData backupData : Data) :
  exists r, runAudit Date_parse now sqlData adData backupData = Ok r /\
    (overall r = CRITICAL <->
     (exists row, In row (records sqlData) /\ actionable row /\
                  finding_mentions "backups not performed" row) \/
     (exists row, In row (records adData) /\ red_flag row) \/
     status (backup r) = Status.FAIL).
Proof.
  destruct (runAudit_run Date_parse now sqlData adData backupData) as (bv & _ & ->).
  eexists. split; [reflexivity|]. cbn [overall backup].
  rewrite overallRisk_CRITICAL.
  assert ((exists row, In row (records sqlData) /\ actionable row /\
                       finding_mentions "backups not performed" row)
          <-> exists row, In row (records sqlData) /\ sql_class row CRITICAL) as ->.
  { split; intros (row & Hin & H); exists row; (split; [assumption|]).
    - destruct H. now constructor.
    - now inversion H. }
  rewrite <- sql_out_CRITICAL, <- ad_out_CRITICAL, <- !sev_list_max_CRITICAL.
  destruct (records sqlData), (records adData); cbn [flat_map map];
    intuition discriminate.
Qed.

(** X16. The downloaded summary has five heading lines, then one line for a
    failed backup, one line per SQL finding and one line per AD finding, in
    that order; it has no line below the headings exactly when the overall
    risk of the audit is [LOW]. *)
Theorem summary_lists_findings (Date_parse : string -> option Z) (now : JsDate)
    (sqlData adData backupData : Data) (clientName today : string) :
  exists r, runAudit Date_parse now sqlData adData backupData = Ok r /\
    skipn 5 (summaryLines clientName today r)
    = pick (bool_decide (status (backup r) = Status.FAIL))
        ("- BACKUPS FAILED (Gap: " +:+ toFixed (gap (backup r)) 1 +:+ "h)")
      ++ map (fun f => "- SQL: " +:+ title f) (findings (sql r))
      ++ map (fun f => "- AD: " +:+ title f) (findings (ad r)) /\
    (length (summaryLines clientName today r) = 5%nat <-> overall r = LOW).
Proof.
  destruct (runAudit_run Date_parse now sqlData adData backupData) as (bv & _ & ->).
  eexists. split; [reflexivity|]. cbn [overall backup sql ad findings risk].
  pose proof (no_findings_iff sql_out _ (sql_out_wf (records sqlData))) as Hs.
  pose proof (no_findings_iff ad_out _ (ad_out_wf (records adData))) as Ha.
  rewrite overallRisk_LOW, Hs, Ha.
  unfold summaryLines, pick. cbn [backup sql ad findings status gap overall].
  destruct (bool_decide_reflect (status bv = Status.FAIL)) as [Hf|Hf].
  - split; [now rewrite <- !app_assoc|].
    rewrite !length_app. cbn [length]. split; [lia | tauto].
  - split; [now rewrite <- !app_assoc|].
    rewrite !length_app, !length_map. cbn [length]. split.
    + intros H. repeat split; [| |exact Hf].
      * destruct (flat_map sql_out (records sqlData)); [reflexivity | cbn in H; lia].
      * destruct (flat_map ad_out (records adData)); [reflexivity | cbn in H; lia].
    + intros (-> & -> & _). reflexivity.
Qed.

(** * The plans and the accounts they list *)

Lemma ad_not_critical_no_findings (rows : list Row) :
  match rows with
  | [] => UNKNOWN
  | _ => sev_list_max (map type (flat_map ad_out rows))
  end <> CRITICAL ->
  flat_map ad_out rows = [].
Proof.
  pose proof (ad_out_types rows) as Hty.
  destruct rows as [|row rows]; [reflexivity|].
  intros Hr. destruct (flat_map ad_out (row :: rows)) as [|f fs]; [reflexivity|].
  exfalso. apply Hr. apply sev_list_max_CRITICAL.
  inversion Hty as [|? ? -> _]. now left.
Qed.

Lemma critical_has_findings (out : Row -> list Finding) (rows : list Row) :
  match rows with
  | [] => UNKNOWN
  | _ => sev_list_max (map type (flat_map out rows))
  end = CRITICAL ->
  flat_map out rows <> [].
Proof.
  destruct rows as [|row rows]; [discriminate|].
  intros H Hnil. rewrite Hnil in H. discriminate.
Qed.

(** X17. The "Top 3 Immediate Actions" panel of an audit is never empty and
    never holds more than three cards. *)
Theorem panel_has_one_to_three_cards (Date_parse : string -> option Z)
    (now : JsDate) (sqlData adData backupData : Data) :
  exists r, runAudit Date_parse now sqlData adData backupData = Ok r /\
    (1 <= length (immediateActions r) <= 3)%nat.
Proof.
  destruct (runAudit_run Date_parse now sqlData adData backupData) as (bv & _ & ->).
  eexists. split; [reflexivity|].
  rewrite <- (length_map heading), immediateActions_headings.
  cbn [overall backup sql ad findings risk].
  pose proof (ad_not_critical_no_findings (records adData)) as Had.
  pose proof (critical_has_findings sql_out (records sqlData)) as Hsc.
  pose proof (critical_has_findings ad_out (records adData)) as Hac.
  set (sr := match records sqlData with [] => UNKNOWN | _ => _ end) in *.
  set (ar := match records adData with [] => UNKNOWN | _ => _ end) in *.
  destruct (bool_decide_reflect (overallRisk sr ar (status bv) <> CRITICAL))
    as [Hov|Hov].
  - destruct (overallRisk_below_CRITICAL _ _ _ Hov) as [Har Hst].
    rewrite (Had Har), (bool_decide_eq_false_2 _ Hst).
    destruct (flat_map sql_out (records sqlData)); cbn; lia.
  - assert (overallRisk sr ar (status bv) = CRITICAL) as Hc
      by (destruct (decide (overallRisk sr ar (status bv) = CRITICAL)); tauto).
    apply overallRisk_CRITICAL in Hc.
    rewrite !length_app. unfold pick.
    destruct (bool_decide_reflect (status bv = Status.FAIL)) as [Hf|Hf],
      (flat_map ad_out (records adData)) as [|a l],
      (flat_map sql_out (records sqlData)) as [|s l'];
      cbn; try lia.
    destruct Hc as [Hc|[Hc|Hc]]; [now apply Hsc in Hc | now apply Hac in Hc | tauto].
Qed.

(** X18. The remediation plan of the text report is empty exactly when the
    overall risk of the audit is [LOW]. *)
Theorem text_plan_empty_iff_low (Date_parse : string -> option Z)
    (now : JsDate) (sqlData adData backupData : Data) :
  exists r, runAudit Date_parse now sqlData adData backupData = Ok r /\
    (remediationLines r = [] <-> overall r = LOW).
Proof.
  destruct (runAudit_run Date_parse now sqlData adData backupData) as (bv & _ & ->).
  eexists. split; [reflexivity|]. cbn [overall].
  pose proof (no_findings_iff sql_out _ (sql_out_wf (records sqlData))) as Hs.
  pose proof (no_findings_iff ad_out _ (ad_out_wf (records adData))) as Ha.
  rewrite overallRisk_LOW, Hs, Ha.
  unfold remediationLines. cbn [backup sql ad findings status].
  destruct (bool_decide_reflect (status bv = Status.FAIL)) as [Hf|Hf],
    (flat_map ad_out (records adData)) as [|a l],
    (flat_map sql_out (records sqlData)) as [|s l'];
    cbn [length Nat.ltb Nat.leb app];
    (split; [try discriminate | try (intros (H1 & H2 & H3); try discriminate; tauto)]).
  tauto.
Qed.

Lemma until_colon_free s : colon_free s -> until_colon s = s.
Proof.
  induction s as [|c s IH]; intros H; cbn; [reflexivity|].
  destruct (Ascii.eqb_spec c ":") as [->|_].
  - now destruct (H ":"%char (or_introl eq_refl)).
  - rewrite IH; [reflexivity|]. intros d Hd. apply H. now right.
Qed.

Lemma split_colon_after pre rest :
  colon_free pre ->
  split_colon_1 (pre +:+ String ":" rest) = VStr (until_colon rest).
Proof.
  induction pre as [|c pre IH]; intros H.
  - reflexivity.
  - change (String c pre +:+ String ":" rest) with (String c (pre +:+ String ":" rest)).
    cbn [split_colon_1]. destruct (Ascii.eqb_spec c ":") as [->|_].
    + now destruct (H ":"%char (or_introl eq_refl)).
    + apply IH. intros d Hd. apply H. now right.
Qed.

(** Splitting the title of an AD finding at its colon gives back the
    account name, after the space that follows the colon. *)
Lemma split_colon_title sam :
  colon_free sam ->
  split_colon_1 ("Unsecured Admin: " +:+ sam) = VStr (" " +:+ sam).
Proof.
  intros H.
  change ("Unsecured Admin: " +:+ sam)
    with ("Unsecured Admin" +:+ String ":" (String " " sam)).
  rewrite split_colon_after.
  - f_equal. apply (until_colon_free (String " " sam)).
    intros c [<-|Hc]; [discriminate | now apply H].
  - intros c Hc. vm_compute in Hc. intuition (subst; discriminate).
Qed.

(** X19. When every AD record has a [SamAccountName] without a colon, the
    accounts listed by the "Lock Down Admin Accounts" item are those of the
    red-flag records, in input order, each after a space and joined by
    ", ". *)
Theorem plan_lists_flagged_accounts (Date_parse : string -> option Z)
    (now : JsDate) (sqlData adData backupData : Data) :
  (forall row, In row (records adData) ->
     exists sam, row !! "SamAccountName" = Some sam /\ colon_free sam) ->
  exists r accounts,
    runAudit Date_parse now sqlData adData backupData = Ok r /\
    flaggedAccounts r = Array_join ", " accounts /\
    emitted red_flag listed_account (records adData) accounts.
Proof.
  intros Hsam.
  destruct (runAudit_run Date_parse now sqlData adData backupData) as (bv & _ & ->).
  eexists. eexists. split; [reflexivity|]. split; [reflexivity|].
  cbn [ad findings].
  induction (records adData) as [|row rows IH]; cbn; [constructor|].
  destruct (Hsam row (or_introl eq_refl)) as (sam & Hrow & Hfree).
  assert (emitted red_flag listed_account rows
            (map (fun f => split_colon_1 (title f)) (flat_map ad_out rows))) as IH'.
  { apply IH. intros r Hr. apply Hsam. now right. }
  destruct (ad_out_spec row) as [[Hn ->]|(f & -> & Hf & [_ Ht] & _)]; cbn.
  - now apply emitted_skip.
  - apply emitted_hit; [exact Hf| |exact IH'].
    unfold listed_account, field. rewrite (Ht sam Hrow), Hrow. cbn [default].
    now apply split_colon_title.
Qed.

Lemma plan_lists_flagged_accounts_witness :
  (forall row, In row (records (Some [ad_row_svc; ad_row_split])) ->
     exists sam, row !! "SamAccountName" = Some sam /\ colon_free sam) /\
  exists r accounts,
    runAudit Date_parse_iso sample_now None (Some [ad_row_svc; ad_row_split]) None
    = Ok r /\
    flaggedAccounts r = Array_join ", " accounts /\
    emitted red_flag listed_account (records (Some [ad_row_svc; ad_row_split]))
      accounts.
Proof.
  assert (forall row, In row (records (Some [ad_row_svc; ad_row_split])) ->
            exists sam, row !! "SamAccountName" = Some sam /\ colon_free sam) as H.
  { intros row [<-|[<-|[]]]; eexists; (split; [reflexivity|]);
      intros c Hc; vm_compute in Hc; intuition (subst; discriminate). }
  split; [exact H|].
  exact (plan_lists_flagged_accounts Date_parse_iso sample_now None
           (Some [ad_row_svc; ad_row_split]) None H).
Defined.

(** * The upload state *)

Lemma validateFile_invalid (type : Slot) (parsed : option Parsed) :
  valid (validateFile type parsed) = false ->
  error (validateFile type parsed) <> None.
Proof.
  unfold validateFile. destruct parsed as [p|]; [|discriminate].
  destruct (length (data p) =? 0)%nat; [discriminate|].
  destruct (detectType (map lower (headers p))); [|discriminate].
  destruct (bool_decide _); discriminate.
Qed.

(** What holds of every entry of the upload state. *)
Lemma handleFileUpload_slot match_values (prev : Files) (type type' : Slot)
    (text : string) :
  slot_of (handleFileUpload match_values prev type text) type'
  = if decide (type = type') then
      {| file_data := Some (data (parseCSV match_values text));
         file_valid :=
           valid (validateFile type (Some (parseCSV match_values text)));
         file_error :=
           error (validateFile type (Some (parseCSV match_values text))) |}
    else slot_of prev type'.
Proof. destruct type, type'; reflexivity. Qed.

Lemma uploads_snoc match_values events type text :
  uploads match_values (events ++ [(type, text)])
  = handleFileUpload match_values (uploads match_values events) type text.
Proof. unfold uploads. now rewrite fold_left_app. Qed.

(** X20. After any sequence of uploads, an entry of the upload state is
    marked valid exactly when it has data and no error message, and an entry
    marked valid holds at least one data row. *)
Theorem uploads_keep_entries_consistent (match_values : string -> list string)
    (events : list (Slot * string)) (type : Slot) :
  (file_valid (slot_of (uploads match_values events) type) = true <->
   file_error (slot_of (uploads match_values events) type) = None /\
   file_data (slot_of (uploads match_values events) type) <> None) /\
  (file_valid (slot_of (uploads match_values events) type) = true ->
   exists rows, file_data (slot_of (uploads match_values events) type) = Some rows /\
                rows <> []).
Proof.
  induction events as [|[type' text] events IH] using rev_ind.
  - destruct type; cbn; (split; [split; [discriminate | tauto] | discriminate]).
  - rewrite uploads_snoc, handleFileUpload_slot.
    destruct (decide (type' = type)) as [->|_]; [|exact IH].
    cbn [file_valid file_error file_data].
    destruct (valid (validateFile type (Some (parseCSV match_values text)))) eqn:Hv.
    + apply validateFile_valid in Hv as (p & [= <-] & Hd & _ & He).
      split; [split; [intros _; split; [exact He | discriminate] | reflexivity]|].
      intros _. eauto.
    + apply validateFile_invalid in Hv.
      split; [split; [discriminate | tauto] | discriminate].
Qed.


Lemma uploads_valid_has_rows match_values (events : list (Slot * string)) type :
  file_valid (slot_of (uploads match_values events) type) = true ->
  exists row rows,
    file_data (slot_of (uploads match_values events) type) = Some (row :: rows).
Proof.
  induction events as [|[type' text] events IH] using rev_ind.
  - destruct type; discriminate.
  - rewrite uploads_snoc, handleFileUpload_slot.
    destruct (decide (type' = type)) as [->|_]; [|exact IH].
    cbn [file_valid file_data].
    intros (p & [= <-] & Hd & _)%validateFile_valid.
    destruct (data (parseCSV match_values text)) as [|row rows]; [contradiction|].
    eauto.
Qed.

(** X22. Whenever the "Generate Risk Report" button is enabled, the audit
    returns a report in which at least one of the three verdicts is not
    [UNKNOWN]. *)
Theorem enabled_audit_has_a_verdict (match_values : string -> list string)
    (Date_parse : string -> option Z) (now : JsDate)
    (events : list (Slot * string)) :
  audit_disabled (uploads match_values events) = false ->
  exists r, runAudit_files Date_parse now (uploads match_values events) = Ok r /\
    (risk (sql r) <> UNKNOWN \/ risk (ad r) <> UNKNOWN \/
     status (backup r) <> Status.UNKNOWN).
Proof.
  intros Hen. unfold runAudit_files.
  set (files := uploads match_values events) in *.
  destruct (runAudit_run Date_parse now (file_data (files_sql files))
              (file_data (files_ad files)) (file_data (files_backup files)))
    as (bv & Hbv & ->).
  eexists. split; [reflexivity|]. cbn [sql ad backup risk].
  unfold audit_disabled in Hen.
  destruct (file_valid (files_sql files)) eqn:Hs;
    [|destruct (file_valid (files_ad files)) eqn:Ha;
      [|destruct (file_valid (files_backup files)) eqn:Hb; [|discriminate]]].
  - left. destruct (uploads_valid_has_rows match_values events slot_sql Hs)
      as (row & rows & Hd).
    cbn [slot_of] in Hd. fold files in Hd. rewrite Hd. cbn [records default].
    apply sev_list_max_known.
  - right. left. destruct (uploads_valid_has_rows match_values events slot_ad Ha)
      as (row & rows & Hd).
    cbn [slot_of] in Hd. fold files in Hd. rewrite Hd. cbn [records default].
    apply sev_list_max_known.
  - right. right.
    destruct (uploads_valid_has_rows match_values events slot_backup Hb)
      as (row & rows & Hd).
    cbn [slot_of] in Hd. fold files in Hd. rewrite Hd in Hbv.
    destruct (analyzeBackups_run Date_parse now row rows)
      as (sorted & m & _ & _ & _ & Hrun).
    rewrite Hrun in Hbv. injection Hbv as <-. cbn [status].
    now destruct (num_gt _ 24).
Qed.

Lemma enabled_audit_has_a_verdict_witness :
  let events := [(slot_sql, "Priority,Finding" +:+ String "010"%char "10,Disk")] in
  audit_disabled (uploads match_cells events) = false /\
  exists r,
    runAudit_files Date_parse_iso sample_now (uploads match_cells events) = Ok r /\
    (risk (sql r) <> UNKNOWN \/ risk (ad r) <> UNKNOWN \/
     status (backup r) <> Status.UNKNOWN).
Proof.
  intros events.
  assert (audit_disabled (uploads match_cells events) = false) as H by reflexivity.
  split; [exact H|].
  exact (enabled_audit_has_a_verdict match_cells Date_parse_iso sample_now events H).
Defined.

(** * The hours gap of dated records *)

Lemma hours_of_ms_nonneg (z : Z) :
  0 <= z -> exists q, hours_of_ms (Some z) = Fin q /\ (0 <= q)%Q.
Proof.
  intros Hz. eexists. split; [reflexivity|].
  unfold Qdiv. change (/ inject_Z (1000 * 60 * 60))%Q with (1 # 3600000)%Q.
  unfold Qle. cbn. lia.
Qed.

(** X23. When every record has a timestamp that parses and some record is a
    success, the hours gap of the verdict is a number that is not negative:
    the latest log is never older than the last success. *)
Theorem dated_gap_not_negative (Date_parse : string -> option Z) (now : JsDate)
    (rows : list Row) :
  all_dated Date_parse rows ->
  (exists row, In row rows /\ success_record row) ->
  exists v q, analyzeBackups Date_parse now (Some rows) = Ok v /\
    gap v = Fin q /\ (0 <= q)%Q.
Proof.
  intros Hd (r0 & Hr0 & Hs0).
  destruct rows as [|row rows]; [destruct Hr0|].
  destruct (analyzeBackups_dated Date_parse now row rows Hd)
    as (latest & last & m & H1 & H2 & _ & ->).
  destruct last as [last|]; [|now destruct (H2 r0 Hr0)].
  destruct H1 as (t & Ht & _ & Hmax).
  destruct H2 as (s & Hs & (r & Hr & _ & Hrs) & _).
  pose proof (Hmax r s Hr I Hrs) as Hle.
  destruct (hours_of_ms_nonneg (t - s)) as (q & Hq & Hq0); [lia|].
  eexists. exists q. split; [reflexivity|]. cbn [gap].
  change (default {| getTime := Some 0 |} (Some last)) with last.
  unfold date_sub. rewrite Ht, Hs. now split.
Qed.

Lemma dated_gap_not_negative_witness :
  let rows :=
    [backup_row_failed;
     mkRow [("TimeCreated", "2025-01-02T00:00:00Z");
            ("Message", "Backup completed successfully")]] in
  all_dated Date_parse_iso rows /\
  (exists row, In row rows /\ success_record row) /\
  exists v q, analyzeBackups Date_parse_iso sample_now (Some rows) = Ok v /\
    gap v = Fin q /\ (0 <= q)%Q.
Proof.
  intros rows.
  assert (all_dated Date_parse_iso rows) as Hd.
  { intros row [<-|[<-|[]]]; vm_compute; discriminate. }
  assert (exists row, In row rows /\ success_record row) as Hs.
  { eexists. split; [right; left; reflexivity|]. left.
    now apply (includes_lower _ _ small_successfully). }
  split; [exact Hd|]. split; [exact Hs|].
  exact (dated_gap_not_negative Date_parse_iso sample_now rows Hd Hs).
Defined.
